(** * webui.py: the synthesis front-end of CosyVoice

    A shallow embedding of [src/webui.py]: the seed helper, the reference
    audio post-processing and the generator [generate_audio] that checks a
    request and streams the engine's audio back to the interface.

    Modelling conventions.
    - Samples are exact rationals ([Q]); the rounding of float32 tensors is
      not modelled.  A waveform of shape (1, n) is the list of its n samples.
    - A generator run is the finite list of the effects it performs, in
      order, together with the way it ends (exhausted or raised).
    - Everything the module reads from its globals or calls in other
      packages (the i18n catalogue, the loaded model, torchaudio, librosa)
      is gathered in the record [Env]. *)

From Stdlib Require Import Ascii String List ZArith QArith Qminmax Qabs Bool Lia.
Import ListNotations.

Set Implicit Arguments.

(** ** Effects of a generator run *)

(** What Python raises in the modelled paths. *)
Inductive Exn : Type :=
| InfoError (path : option string)   (* torchaudio.info(path) failed *)
| LoadError (path : option string)   (* load_wav(path, sr) failed *)
| EmptyReduction                     (* Tensor.max() of an empty tensor *)
| EngineError (msg : string).        (* raised inside cosyvoice.inference_* *)

(** The arguments of the four synthesis entry points of the model object. *)
Inductive EngineCall : Type :=
| inference_sft (tts_text spk_id : string) (stream : bool) (speed : Q)
| inference_zero_shot (tts_text prompt_text : string)
    (prompt_speech_16k : list Q) (stream : bool) (speed : Q)
| inference_cross_lingual (tts_text : string)
    (prompt_speech_16k : list Q) (stream : bool) (speed : Q)
| inference_instruct (tts_text spk_id instruct_text : string)
    (stream : bool) (speed : Q).

(** A value handed to the audio widget: [(sample_rate, samples)]. *)
Definition Chunk : Type := (Z * list Q)%type.

Inductive Event : Type :=
| GrWarning (key : string)            (* gr.Warning(i18n.t(key)...) *)
| GrInfo (key : string)               (* gr.Info(i18n.t(key)) *)
| Yield (c : Chunk)                   (* yield (rate, data) *)
| LoggingInfo (msg : string)          (* logging.info(msg) *)
| SetAllRandomSeed (seed : Z)         (* set_all_random_seed(seed) *)
| LoadWav (path : string) (sr : Z)    (* load_wav(path, sr) *)
| Inference (c : EngineCall)          (* cosyvoice.inference_*(...) *)
| RandInt (a b : Z).                  (* random.randint(a, b) *)

(** The item an engine generator produces: a dict whose ["tts_speech"] entry
    is a two-dimensional tensor, given here by its rows. *)
Record ModelOutput : Type := { tts_speech : list (list Q) }.

(** The run of an engine generator: it is finite, and ends either exhausted
    or by raising. *)
Inductive EngineStream : Type :=
| Exhausted
| Raises (e : Exn)
| Emits (i : ModelOutput) (rest : EngineStream).

Fixpoint emitted (s : EngineStream) : list ModelOutput :=
  match s with
  | Exhausted | Raises _ => []
  | Emits i rest => i :: emitted rest
  end.

Fixpoint failure (s : EngineStream) : option Exn :=
  match s with
  | Exhausted => None
  | Raises e => Some e
  | Emits _ rest => failure rest
  end.

(** ** The generator monad: a trace of effects and an outcome *)

Definition Gen (A : Type) : Type := (list Event * (Exn + A))%type.

Definition ret {A} (a : A) : Gen A := ([], inr a).

Definition bind {A B} (m : Gen A) (k : A -> Gen B) : Gen B :=
  match snd m with
  | inl e => (fst m, inl e)
  | inr a => (fst m ++ fst (k a), snd (k a))
  end.

Definition emit (ev : Event) : Gen unit := ([ev], inr tt).

Definition raise {A} (e : Exn) : Gen A := ([], inl e).

Definition lift {A} (r : Exn + A) : Gen A := ([], r).

Definition when (b : bool) (m : Gen unit) : Gen unit :=
  if b then m else ret tt.

Declare Scope gen_scope.
Delimit Scope gen_scope with gen.
Notation "x <- m ;; k" := (bind m (fun x => k))
  (at level 61, m at next level, right associativity) : gen_scope.
Notation "m ;; k" := (bind m (fun _ => k))
  (at level 61, right associativity) : gen_scope.

Definition trace {A} (m : Gen A) : list Event := fst m.
Definition outcome {A} (m : Gen A) : Exn + A := snd m.

(** The chunks the caller of the generator receives, in order. *)
Fixpoint yields (tr : list Event) : list Chunk :=
  match tr with
  | [] => []
  | Yield c :: rest => c :: yields rest
  | _ :: rest => yields rest
  end.

(** The synthesis entry points called, in order. *)
Fixpoint inferences (tr : list Event) : list EngineCall :=
  match tr with
  | [] => []
  | Inference c :: rest => c :: inferences rest
  | _ :: rest => inferences rest
  end.

(** The seeds applied, in order. *)
Fixpoint seedings (tr : list Event) : list Z :=
  match tr with
  | [] => []
  | SetAllRandomSeed s :: rest => s :: seedings rest
  | _ :: rest => seedings rest
  end.

(** ** Module globals and collaborators *)

Record Env : Type := {
  (* i18n.t: the label catalogue of the chosen locale *)
  i18n_t : string -> string;
  (* cosyvoice.instruct *)
  cosyvoice_instruct : bool;
  (* cosyvoice.sample_rate *)
  cosyvoice_sample_rate : Z;
  (* torchaudio.info(path).sample_rate; None when the call raises *)
  torchaudio_info : string -> option Z;
  (* load_wav(path, target_sr); None when the call raises *)
  load_wav : string -> Z -> option (list Q);
  (* librosa.effects.trim(speech, top_db, frame_length, hop_length)[0] *)
  librosa_trim : list Q -> Z -> Z -> Z -> list Q;
  (* the run of cosyvoice.inference_* under the seed last applied *)
  cosyvoice_inference : Z -> EngineCall -> EngineStream
}.

Definition max_val : Q := 0.8.
Definition prompt_sr : Z := 16000.

(** [default_data = np.zeros(cosyvoice.sample_rate)] *)
Definition default_data (env : Env) : list Q :=
  repeat 0%Q (Z.to_nat (cosyvoice_sample_rate env)).

(** The form fields handed to [generate_audio]. *)
Record Request : Type := {
  tts_text : string;
  mode_checkbox_group : string;
  sft_dropdown : string;
  prompt_text : string;
  prompt_wav_upload : option string;
  prompt_wav_record : option string;
  instruct_text : string;
  seed : Z;
  stream : bool;
  speed : Q
}.

(** ** generate_seed *)

(** [random.randint(a, b)]: the generator's raw output [raw] reduced into
    the [b - a + 1] values from [a] to [b]. *)
Definition randint (a b raw : Z) : Z := (a + raw mod (b - a + 1))%Z.

(** The dict [{"__type__": "update", "value": seed}]. *)
Record Update : Type := { update_type : string; update_value : Z }.

Definition generate_seed (raw : Z) : Gen Update :=
  (emit (RandInt 1 100000000) ;;
   let seed := randint 1 100000000 raw in
   ret {| update_type := "update"; update_value := seed |})%gen.

(** ** postprocess *)

(** [speech.abs().max()]; torch raises on a tensor without elements. *)
Fixpoint abs_max (speech : list Q) : option Q :=
  match speech with
  | [] => None
  | x :: rest =>
      match abs_max rest with
      | None => Some (Qabs x)
      | Some m => Some (Qmax (Qabs x) m)
      end
  end.

(** [torch.zeros(1, int(cosyvoice.sample_rate * 0.2))] *)
Definition pad (sample_rate : Z) : list Q :=
  repeat 0%Q (Z.to_nat (Z.quot (sample_rate * 2) 10)).

Definition postprocess (env : Env) (speech : list Q)
    (top_db hop_length win_length : Z) : Exn + list Q :=
  let speech := librosa_trim env speech top_db win_length hop_length in
  match abs_max speech with
  | None => inl EmptyReduction
  | Some peak =>
      let speech :=
        if negb (Qle_bool peak max_val)
        then map (fun x => x / peak * max_val)%Q speech
        else speech in
      inr (speech ++ pad (cosyvoice_sample_rate env))
  end.

(** ** generate_audio *)

Definition in_list (x : string) (l : list string) : bool :=
  existsb (String.eqb x) l.

Definition is_none {A} (o : option A) : bool :=
  match o with None => true | Some _ => false end.

(** Lines 118-123: which reference recording is used. *)
Definition select_prompt_wav (prompt_wav_upload prompt_wav_record : option string)
    : option string :=
  match prompt_wav_upload with
  | Some p => Some p
  | None =>
      match prompt_wav_record with
      | Some p => Some p
      | None => None
      end
  end.

(** [torchaudio.info(prompt_wav).sample_rate]; it raises on [None]. *)
Definition info_sample_rate (env : Env) (prompt_wav : option string) : Gen Z :=
  match prompt_wav with
  | None => raise (InfoError None)
  | Some path =>
      match torchaudio_info env path with
      | None => raise (InfoError (Some path))
      | Some sr => ret sr
      end
  end.

(** [load_wav(prompt_wav, prompt_sr)]; it raises on [None]. *)
Definition call_load_wav (env : Env) (prompt_wav : option string) (sr : Z)
    : Gen (list Q) :=
  match prompt_wav with
  | None => raise (LoadError None)
  | Some path =>
      match load_wav env path sr with
      | None => raise (LoadError (Some path))
      | Some speech => (emit (LoadWav path sr) ;; ret speech)%gen
      end
  end.

(** [yield (cosyvoice.sample_rate, default_data)] *)
Definition yield_default (env : Env) : Gen unit :=
  emit (Yield (cosyvoice_sample_rate env, default_data env)).

(** [(cosyvoice.sample_rate, i["tts_speech"].numpy().flatten())] *)
Definition tag (env : Env) (i : ModelOutput) : Chunk :=
  (cosyvoice_sample_rate env, concat (tts_speech i)).

(** [for i in <engine generator>: yield (cosyvoice.sample_rate, ...)] *)
Fixpoint for_yield (env : Env) (s : EngineStream) : Gen unit :=
  match s with
  | Exhausted => ret tt
  | Raises e => raise e
  | Emits i rest => (emit (Yield (tag env i)) ;; for_yield env rest)%gen
  end.

Section GenerateAudio.

Variable env : Env.
Variable r : Request.

Let t := i18n_t env.
Let mode := mode_checkbox_group r.
Let nonempty (s : string) : bool := negb (String.eqb s "").

(** Lines 124-175: the checks on the form fields. *)
Definition checks (prompt_wav : option string) : Gen unit :=
  (when (in_list mode [t "inference_mode_list.natural_language_control"])
     (when (Bool.eqb (cosyvoice_instruct env) false)
        (emit (GrWarning "warnings.nlp_model_warn") ;; yield_default env) ;;
      when (String.eqb (instruct_text r) "")
        (emit (GrWarning "warnings.instruct_text") ;; yield_default env) ;;
      when (negb (is_none prompt_wav) || nonempty (prompt_text r))
        (emit (GrInfo "info.prompt_wav"))) ;;
   when (in_list mode [t "inference_mode_list.crosslingual"])
     (when (Bool.eqb (cosyvoice_instruct env) true)
        (emit (GrWarning "warnings.no_crosslingual_support") ;;
         yield_default env) ;;
      when (nonempty (instruct_text r))
        (emit (GrInfo "warnings.crosslingual_instruct_ignored")) ;;
      when (is_none prompt_wav)
        (emit (GrWarning "warnings.crosslingual_prompt_audio_required") ;;
         yield_default env) ;;
      emit (GrInfo "info.crosslingual_language_reminder")) ;;
   when (in_list mode [t "inference_mode_list.3s_fast_replication";
                       t "inference_mode_list.crosslingual"])
     (when (is_none prompt_wav)
        (emit (GrWarning "warnings.prompt_audio_empty") ;; yield_default env) ;;
      rate <- info_sample_rate env prompt_wav ;;
      when (rate <? prompt_sr)%Z
        (_ <- info_sample_rate env prompt_wav ;;
         emit (GrWarning "warnings.sample_rate_error") ;;
         yield_default env)) ;;
   when (in_list mode [t "inference_mode_list.pretrained_voice"])
     (when (nonempty (instruct_text r) || negb (is_none prompt_wav)
            || nonempty (prompt_text r))
        (emit (GrInfo "info.pretrained_voice_warning")) ;;
      when (String.eqb (sft_dropdown r) "")
        (emit (GrWarning "warnings.pretrained_model_empty") ;;
         yield_default env)) ;;
   when (in_list mode [t "inference_mode_list.3s_fast_replication"])
     (when (String.eqb (prompt_text r) "")
        (emit (GrWarning "warnings.prompt_text_empty") ;; yield_default env) ;;
      when (nonempty (instruct_text r))
        (emit (GrInfo "info.instruct_text_empty"))))%gen.

(** The body shared by the four branches of lines 177-206: seed, then call
    the engine and relay what it produces. *)
Definition seeded_inference (c : EngineCall) : Gen unit :=
  (emit (SetAllRandomSeed (seed r)) ;;
   emit (Inference c) ;;
   for_yield env (cosyvoice_inference env (seed r) c))%gen.

(** Lines 177-206: the call of the engine. *)
Definition inference (prompt_wav : option string) : Gen unit :=
  (if String.eqb mode (t "inference_mode_list.pretrained_voice") then
     emit (LoggingInfo "get sft inference request") ;;
     seeded_inference
       (inference_sft (tts_text r) (sft_dropdown r) (stream r) (speed r))
   else if String.eqb mode (t "inference_mode_list.3s_fast_replication") then
     emit (LoggingInfo "get zero_shot inference request") ;;
     speech <- call_load_wav env prompt_wav prompt_sr ;;
     prompt_speech_16k <- lift (postprocess env speech 60 220 440) ;;
     seeded_inference
       (inference_zero_shot (tts_text r) (prompt_text r) prompt_speech_16k
          (stream r) (speed r))
   else if String.eqb mode (t "inference_mode_list.crosslingual") then
     emit (LoggingInfo "get cross_lingual inference request") ;;
     speech <- call_load_wav env prompt_wav prompt_sr ;;
     prompt_speech_16k <- lift (postprocess env speech 60 220 440) ;;
     seeded_inference
       (inference_cross_lingual (tts_text r) prompt_speech_16k
          (stream r) (speed r))
   else
     emit (LoggingInfo "get instruct inference request") ;;
     seeded_inference
       (inference_instruct (tts_text r) (sft_dropdown r) (instruct_text r)
          (stream r) (speed r)))%gen.

Definition generate_audio : Gen unit :=
  (let prompt_wav :=
     select_prompt_wav (prompt_wav_upload r) (prompt_wav_record r) in
   checks prompt_wav ;;
   inference prompt_wav)%gen.

End GenerateAudio.

(** ** A sample environment *)

(** Modelled from the spec: librosa.effects.trim belongs to a third-party
    package and is absent from src/.  Section 4.1: "Trim leading and trailing
    intervals whose energy, measured over sliding frames of frameLength
    samples with hopLength stride, stays below topDbThreshold decibels
    relative to the clip's peak."  Frame [k] holds the samples from
    [k * hop_length] on, at most [frame_length] of them; its energy is the
    sum of their squares; a frame is below the threshold when its energy
    times [10 ^ (top_db / 10)] is less than the largest frame energy.  The
    result runs from the start of the first frame that is not below the
    threshold to the end of the last one. *)
Module SpecTrim.

Definition energy (frame : list Q) : Q :=
  fold_right (fun x acc => Qred (x * x + acc)) 0%Q frame.

Definition frame (speech : list Q) (frame_length hop_length k : nat) : list Q :=
  firstn frame_length (skipn (k * hop_length) speech).

Definition frame_count (speech : list Q) (hop_length : nat) : nat :=
  (List.length speech + hop_length - 1) / hop_length.

Definition peak_energy (energies : list Q) : Q :=
  fold_right Qmax 0%Q energies.

Definition audible (top_db : Z) (peak e : Q) : bool :=
  Qle_bool peak (e * inject_Z (10 ^ (top_db / 10)))%Q.

Fixpoint first_index (f : Q -> bool) (l : list Q) (k : nat) : option nat :=
  match l with
  | [] => None
  | e :: rest => if f e then Some k else first_index f rest (S k)
  end.

Fixpoint last_index (f : Q -> bool) (l : list Q) (k : nat) : option nat :=
  match l with
  | [] => None
  | e :: rest =>
      match last_index f rest (S k) with
      | Some j => Some j
      | None => if f e then Some k else None
      end
  end.

Definition trim (speech : list Q) (top_db frame_length hop_length : Z)
    : list Q :=
  let fl := Z.to_nat frame_length in
  let hl := Z.to_nat hop_length in
  let energies :=
    map (fun k => energy (frame speech fl hl k))
        (seq 0 (frame_count speech hl)) in
  let keep := audible top_db (peak_energy energies) in
  match first_index keep energies 0, last_index keep energies 0 with
  | Some a, Some b =>
      skipn (a * hl) (firstn (b * hl + fl) speech)
  | _, _ => []
  end.

End SpecTrim.

(** A loud recording: 440 samples of amplitude 1.6. *)
Definition loud_speech : list Q := repeat 1.6%Q 440.

Definition two_chunks : EngineStream :=
  Emits {| tts_speech := [[0.25; 0.5]%Q] |}
    (Emits {| tts_speech := [[-0.5]%Q] |} Exhausted).

(** python-i18n hands back the key itself when the catalogue has no entry
    for it; the model does not answer instruct requests and produces audio
    at 22050 Hz in two chunks; every file holds the loud recording at
    16 kHz. *)
Definition demo_env : Env := {|
  i18n_t := fun key => key;
  cosyvoice_instruct := false;
  cosyvoice_sample_rate := 22050;
  torchaudio_info := fun _ => Some 16000%Z;
  load_wav := fun _ _ => Some loud_speech;
  librosa_trim := SpecTrim.trim;
  cosyvoice_inference := fun _ _ => two_chunks
|}.

(** Scenario A: a pretrained voice with an empty speaker. *)
Definition empty_speaker_request : Request := {|
  tts_text := "hello";
  mode_checkbox_group := "inference_mode_list.pretrained_voice";
  sft_dropdown := "";
  prompt_text := "";
  prompt_wav_upload := None;
  prompt_wav_record := None;
  instruct_text := "";
  seed := 42;
  stream := false;
  speed := 1
|}.

(** ** Vocabulary of the specification *)

(** The four synthesis modes of the specification and the catalogue label
    under which the form submits each of them. *)
Inductive SynthesisMode : Type :=
| PretrainedVoice
| FastReplication
| CrossLingual
| InstructControl.

Definition mode_key (m : SynthesisMode) : string :=
  match m with
  | PretrainedVoice => "inference_mode_list.pretrained_voice"
  | FastReplication => "inference_mode_list.3s_fast_replication"
  | CrossLingual => "inference_mode_list.crosslingual"
  | InstructControl => "inference_mode_list.natural_language_control"
  end.

Definition label (env : Env) (m : SynthesisMode) : string :=
  i18n_t env (mode_key m).

Definition all_modes : list SynthesisMode :=
  [PretrainedVoice; FastReplication; CrossLingual; InstructControl].

(** The catalogue gives the four modes four different labels. *)
Definition distinct_labels (env : Env) : Prop :=
  NoDup (map (label env) all_modes).

(** Section 4.4 of the specification, in its words: the engine operation
    assigned to each mode, given the post-processed reference audio. *)
Definition spec_operation (m : SynthesisMode) (r : Request)
    (processedAudio : list Q) : EngineCall :=
  match m with
  | PretrainedVoice =>
      inference_sft (tts_text r) (sft_dropdown r) (stream r) (speed r)
  | FastReplication =>
      inference_zero_shot (tts_text r) (prompt_text r) processedAudio
        (stream r) (speed r)
  | CrossLingual =>
      inference_cross_lingual (tts_text r) processedAudio (stream r) (speed r)
  | InstructControl =>
      inference_instruct (tts_text r) (sft_dropdown r) (instruct_text r)
        (stream r) (speed r)
  end.

(** What dispatch needs before it can call the engine: nothing for the
    speaker-based modes; for the reference-based ones, the recording loaded
    at 16 kHz and post-processed with the default parameters. *)
Definition reference_ready (env : Env) (prompt_wav : option string)
    (m : SynthesisMode) (processedAudio : list Q) : Prop :=
  match m with
  | PretrainedVoice | InstructControl => True
  | FastReplication | CrossLingual =>
      exists path speech,
        prompt_wav = Some path /\
        load_wav env path prompt_sr = Some speech /\
        postprocess env speech 60 220 440 = inr processedAudio
  end.

(** The reference recording [generate_audio] works with. *)
Definition prompt_wav_of (r : Request) : option string :=
  select_prompt_wav (prompt_wav_upload r) (prompt_wav_record r).

(** A request passes the checks when they run to their end without raising
    and without yielding the silent placeholder. *)
Definition passes_checks (env : Env) (r : Request) : Prop :=
  outcome (checks env r (prompt_wav_of r)) = inr tt /\
  yields (trace (checks env r (prompt_wav_of r))) = [].

(** The items of a yielded tuple as Python sees them. *)
Inductive PyValue : Type :=
| PyInt (n : Z)
| PyArray (a : list Q)
| PyBool (b : bool).

(** [(cosyvoice.sample_rate, data)] is a tuple of two items. *)
Definition as_tuple (c : Chunk) : list PyValue :=
  [PyInt (fst c); PyArray (snd c)].

(** A chunk carries the flag [isFinal = true] when the boolean [True] is
    one of the items of its tuple. *)
Definition carries_final (c : Chunk) : Prop :=
  In (PyBool true) (as_tuple c).

(** Events that neither seed nor call the engine nor draw a random number. *)
Definition plain (ev : Event) : Prop :=
  match ev with
  | SetAllRandomSeed _ | Inference _ | RandInt _ _ => False
  | _ => True
  end.

(** A fast-replication request without any reference recording. *)
Definition no_reference_request : Request := {|
  tts_text := "hello";
  mode_checkbox_group := "inference_mode_list.3s_fast_replication";
  sft_dropdown := "";
  prompt_text := "hi";
  prompt_wav_upload := None;
  prompt_wav_record := None;
  instruct_text := "";
  seed := 42;
  stream := false;
  speed := 1
|}.

(** A pretrained-voice request that names a speaker. *)
Definition valid_request : Request := {|
  tts_text := "hello";
  mode_checkbox_group := "inference_mode_list.pretrained_voice";
  sft_dropdown := "speaker-1";
  prompt_text := "";
  prompt_wav_upload := None;
  prompt_wav_record := None;
  instruct_text := "";
  seed := 42;
  stream := false;
  speed := 1
|}.

(** Scenario C: fast replication from an uploaded 16 kHz recording. *)
Definition replication_request : Request := {|
  tts_text := "hello";
  mode_checkbox_group := "inference_mode_list.3s_fast_replication";
  sft_dropdown := "";
  prompt_text := "hi";
  prompt_wav_upload := Some "upload.wav"%string;
  prompt_wav_record := Some "record.wav"%string;
  instruct_text := "";
  seed := 42;
  stream := false;
  speed := 1
|}.

(** Scenario D: the engine emits two chunks and raises on the third; the
    environment is otherwise the sample one. *)
Definition two_chunks_then_error : EngineStream :=
  Emits {| tts_speech := [[0.25; 0.5]%Q] |}
    (Emits {| tts_speech := [[-0.5]%Q] |}
       (Raises (EngineError "out of memory"))).

Definition failing_env : Env := {|
  i18n_t := fun key => key;
  cosyvoice_instruct := false;
  cosyvoice_sample_rate := 22050;
  torchaudio_info := fun _ => Some 16000%Z;
  load_wav := fun _ _ => Some loud_speech;
  librosa_trim := SpecTrim.trim;
  cosyvoice_inference := fun _ _ => two_chunks_then_error
|}.

(** A quiet recording: 440 samples of amplitude 0.5, and what
    [postprocess] makes of it at 22050 Hz. *)
Definition quiet_speech : list Q := repeat 0.5%Q 440.

Definition quiet_out : list Q := quiet_speech ++ repeat 0%Q 4410.

(** What [postprocess] makes of the loud recording at 22050 Hz: 440
    samples of [1.6 / 1.6 * 0.8] and 4410 zeros. *)
Definition loud_out : list Q := repeat (1280 # 1600)%Q 440 ++ repeat 0%Q 4410.

(** ** The label tables and the form (lines 39-71, 91-92, 209-383, 409-411) *)

Open Scope string_scope.

(** What Python raises on a failed lookup, and what the recognizer may
    raise. *)
Inductive PyError : Type :=
| KeyError (key : string)      (* d[key] without such a key *)
| IndexError                   (* l[i] out of range *)
| AsrFailure (msg : string).   (* raised inside asr_model.generate *)

(** A Python dict with string keys and values: the items in insertion
    order, every key once. *)
Definition Dict : Type := list (string * string).

Fixpoint dict_get (key : string) (d : Dict) : option string :=
  match d with
  | [] => None
  | (k, v) :: rest => if String.eqb key k then Some v else dict_get key rest
  end.

(** [d[key] = value]: an existing key keeps its place and gets the new
    value, a new key goes last. *)
Fixpoint dict_set (key value : string) (d : Dict) : Dict :=
  match d with
  | [] => [(key, value)]
  | (k, v) :: rest =>
      if String.eqb key k then (k, value) :: rest
      else (k, v) :: dict_set key value rest
  end.

(** A dict display [{k1: v1, k2: v2, ...}]: the items are stored from left
    to right. *)
Definition dict_literal (items : list (string * string)) : Dict :=
  fold_left (fun d kv => dict_set (fst kv) (snd kv) d) items [].

(** The three module globals [initialize_global_texts] assigns. *)
Record GlobalTexts : Type := {
  inference_mode_list : list string;
  instruct_dict : Dict;
  stream_mode_list : list (string * bool)
}.

(** The globals as the module is imported (lines 39-41). *)
Definition uninitialized_texts : GlobalTexts := {|
  inference_mode_list := [];
  instruct_dict := [];
  stream_mode_list := []
|}.

Definition initialize_global_texts (env : Env) : GlobalTexts :=
  let t := i18n_t env in
  {| inference_mode_list :=
       [t "inference_mode_list.pretrained_voice";
        t "inference_mode_list.3s_fast_replication";
        t "inference_mode_list.crosslingual";
        t "inference_mode_list.natural_language_control"];
     instruct_dict :=
       dict_literal
         [(t "inference_mode_list.pretrained_voice",
           t "instruct_dict.pretrained_voice");
          (t "inference_mode_list.3s_fast_replication",
           t "instruct_dict.3s_fast_replication");
          (t "inference_mode_list.crosslingual",
           t "instruct_dict.crosslingual");
          (t "inference_mode_list.natural_language_control",
           t "instruct_dict.natural_language_control")];
     stream_mode_list :=
       [(t "boolean.false", false); (t "boolean.true", true)] |}.

(** [instruct_dict[mode_checkbox_group]] *)
Definition change_instruction (texts : GlobalTexts)
    (mode_checkbox_group : string) : PyError + string :=
  match dict_get mode_checkbox_group (instruct_dict texts) with
  | Some instruction => inr instruction
  | None => inl (KeyError mode_checkbox_group)
  end.

(** The catalogue key of the instruction shown for a mode. *)
Definition instruct_key (m : SynthesisMode) : string :=
  match m with
  | PretrainedVoice => "instruct_dict.pretrained_voice"
  | FastReplication => "instruct_dict.3s_fast_replication"
  | CrossLingual => "instruct_dict.crosslingual"
  | InstructControl => "instruct_dict.natural_language_control"
  end.

(** Lines 409-411: the speakers offered by the dropdown. *)
Definition startup_sft_spk (list_available_spks : list string) : list string :=
  if (List.length list_available_spks =? 0)%nat then [""%string]
  else list_available_spks.

(** The [visible] flags of the four widgets that are shown for some modes
    only. *)
Record Visibility : Type := {
  sft_dropdown_visible : bool;
  prompt_wav_upload_visible : bool;
  prompt_wav_record_visible : bool;
  prompt_text_visible : bool
}.

(** Lines 333-374: the handler of [mode_checkbox_group.change] that updates
    [sft_dropdown, prompt_wav_upload, prompt_wav_record, prompt_text]. *)
Definition mode_change_visibility (env : Env) (mode : string) : Visibility :=
  let t := i18n_t env in
  {| sft_dropdown_visible :=
       in_list mode [t "inference_mode_list.pretrained_voice";
                     t "inference_mode_list.natural_language_control"];
     prompt_wav_upload_visible :=
       in_list mode [t "inference_mode_list.3s_fast_replication";
                     t "inference_mode_list.crosslingual"];
     prompt_wav_record_visible :=
       in_list mode [t "inference_mode_list.3s_fast_replication";
                     t "inference_mode_list.crosslingual"];
     prompt_text_visible :=
       in_list mode [t "inference_mode_list.3s_fast_replication";
                     t "inference_mode_list.crosslingual"] |}.

(** The values and flags the widgets of [main] are created with. *)
Record Form : Type := {
  tts_text_value : string;
  mode_value : string;
  instruction_value : string;
  sft_choices : list string;
  sft_value : string;
  stream_value : bool;
  speed_value : Q;
  seed_value : Z;
  prompt_text_value : string;
  instruct_text_value : string;
  visibility : Visibility
}.

Definition item {A} (l : list A) (i : nat) : PyError + A :=
  match nth_error l i with
  | Some x => inr x
  | None => inl IndexError
  end.

Definition and_then {A B} (r : PyError + A) (k : A -> PyError + B) : PyError + B :=
  match r with
  | inl e => inl e
  | inr a => k a
  end.

(** Lines 210-303: the widgets of [main], in the order they are built, from
    the globals [inference_mode_list], [instruct_dict], [stream_mode_list]
    and [sft_spk]. *)
Definition main_form (env : Env) (texts : GlobalTexts) (sft_spk : list string)
    : PyError + Form :=
  let t := i18n_t env in
  and_then (item (inference_mode_list texts) 0) (fun mode0 =>
  and_then (item (inference_mode_list texts) 0) (fun mode0' =>
  and_then (change_instruction texts mode0') (fun instruction =>
  and_then (item sft_spk 0) (fun spk0 =>
  and_then (item (stream_mode_list texts) 0) (fun stream0 =>
  inr {| tts_text_value := t "placeholders.enter_synthesis_text";
         mode_value := mode0;
         instruction_value := instruction;
         sft_choices := sft_spk;
         sft_value := spk0;
         stream_value := snd stream0;
         speed_value := 1;
         seed_value := 0;
         prompt_text_value := "";
         instruct_text_value := "";
         visibility :=
           {| sft_dropdown_visible :=
                in_list mode0
                  [t "inference_mode_list.pretrained_voice";
                   t "inference_mode_list.natural_language_control"];
              prompt_wav_upload_visible :=
                in_list mode0
                  [t "inference_mode_list.3s_fast_replication";
                   t "inference_mode_list.crosslingual"];
              prompt_wav_record_visible :=
                in_list mode0
                  [t "inference_mode_list.3s_fast_replication";
                   t "inference_mode_list.crosslingual"];
              prompt_text_visible :=
                in_list mode0
                  [t "inference_mode_list.3s_fast_replication";
                   t "inference_mode_list.crosslingual"] |} |}))))).

(** Lines 312-327: the request [generate_button.click] hands to
    [generate_audio] when the form is submitted as it was built; the two
    audio widgets hold nothing. *)
Definition form_request (f : Form) : Request := {|
  tts_text := tts_text_value f;
  mode_checkbox_group := mode_value f;
  sft_dropdown := sft_value f;
  prompt_text := prompt_text_value f;
  prompt_wav_upload := None;
  prompt_wav_record := None;
  instruct_text := instruct_text_value f;
  seed := seed_value f;
  stream := stream_value f;
  speed := speed_value f
|}.

(** ** prompt_wav_recognition (lines 95-103) *)

Definition cons_head (c : Ascii.ascii) (parts : list string) : list string :=
  match parts with
  | [] => [String c EmptyString]
  | part :: rest => String c part :: rest
  end.

(** [text.split("|>")]: the pieces between the occurrences of the two
    characters, found from left to right. *)
Fixpoint split_tag (text : string) : list string :=
  match text with
  | EmptyString => [EmptyString]
  | String c rest =>
      match rest with
      | EmptyString => [String c EmptyString]
      | String d rest' =>
          if (Ascii.eqb c "|"%char && Ascii.eqb d ">"%char)%bool
          then EmptyString :: split_tag rest'
          else cons_head c (split_tag rest)
      end
  end.

(** Whether ["|>"] occurs in a string. *)
Fixpoint has_tag (text : string) : bool :=
  match text with
  | EmptyString => false
  | String c rest =>
      match rest with
      | EmptyString => false
      | String d _ =>
          (Ascii.eqb c "|"%char && Ascii.eqb d ">"%char) || has_tag rest
      end
  end.

(** ["|>".join(parts)] *)
Fixpoint join_tag (parts : list string) : string :=
  match parts with
  | [] => EmptyString
  | [part] => part
  | part :: rest => (part ++ "|>" ++ join_tag rest)%string
  end.

(** [if prompt_wav:] is false on [None] and on the empty path. *)
Definition truthy (prompt_wav : option string) : bool :=
  match prompt_wav with
  | None => false
  | Some path => negb (String.eqb path "")
  end.

(** [asr_generate path] stands for
    [asr_model.generate(input=path, language="auto", use_itn=True)]: a list
    of dicts, or an exception.  The function returns [None] when it falls
    off its end. *)
Definition prompt_wav_recognition
    (asr_generate : string -> PyError + list Dict)
    (prompt_wav : option string) : PyError + option string :=
  match prompt_wav with
  | Some path =>
      if truthy prompt_wav then
        and_then (asr_generate path) (fun res =>
        and_then (item res 0) (fun first =>
        match dict_get "text" first with
        | None => inl (KeyError "text")
        | Some text =>
            match rev (split_tag text) with
            | [] => inl IndexError
            | last_part :: _ => inr (Some last_part)
            end
        end))
      else inr None
  | None => inr None
  end.

Close Scope string_scope.

(** Copies of a request with some fields replaced. *)
Definition with_sft_dropdown (r : Request) (spk : string) : Request := {|
  tts_text := tts_text r;
  mode_checkbox_group := mode_checkbox_group r;
  sft_dropdown := spk;
  prompt_text := prompt_text r;
  prompt_wav_upload := prompt_wav_upload r;
  prompt_wav_record := prompt_wav_record r;
  instruct_text := instruct_text r;
  seed := seed r;
  stream := stream r;
  speed := speed r
|}.

Definition with_reference (r : Request) (text : string)
    (upload record : option string) : Request := {|
  tts_text := tts_text r;
  mode_checkbox_group := mode_checkbox_group r;
  sft_dropdown := sft_dropdown r;
  prompt_text := text;
  prompt_wav_upload := upload;
  prompt_wav_record := record;
  instruct_text := instruct_text r;
  seed := seed r;
  stream := stream r;
  speed := speed r
|}.

(** The silent placeholder. *)
Definition placeholder (env : Env) : Chunk :=
  (cosyvoice_sample_rate env, default_data env).

(** How often [gr.Warning] is called in a trace. *)
Fixpoint warnings (tr : list Event) : nat :=
  match tr with
  | [] => 0
  | GrWarning _ :: rest => S (warnings rest)
  | _ :: rest => warnings rest
  end.

(** A trace made of [gr.Info] calls and of [gr.Warning] calls each followed
    at once by the yield of the placeholder. *)
Inductive paired (env : Env) : list Event -> Prop :=
| paired_nil : paired env []
| paired_info key rest :
    paired env rest -> paired env (GrInfo key :: rest)
| paired_warning key rest :
    paired env rest ->
    paired env (GrWarning key :: Yield (placeholder env) :: rest).

(** A reference recording the checks accept: a path whose file torchaudio
    can inspect and whose sample rate is at least 16 kHz. *)
Definition usable_reference (env : Env) (r : Request) : Prop :=
  exists path rate,
    prompt_wav_of r = Some path /\
    torchaudio_info env path = Some rate /\ (16000 <= rate)%Z.

(** An instruct request and a cross-lingual request for the sample
    environment. *)
Definition instruct_request : Request := {|
  tts_text := "hello";
  mode_checkbox_group := "inference_mode_list.natural_language_control";
  sft_dropdown := "speaker-1";
  prompt_text := "";
  prompt_wav_upload := None;
  prompt_wav_record := None;
  instruct_text := "cheerful";
  seed := 7;
  stream := true;
  speed := 1
|}.

Definition cross_lingual_request : Request := {|
  tts_text := "hello";
  mode_checkbox_group := "inference_mode_list.crosslingual";
  sft_dropdown := "";
  prompt_text := "";
  prompt_wav_upload := None;
  prompt_wav_record := Some "record.wav"%string;
  instruct_text := "";
  seed := 7;
  stream := false;
  speed := 1
|}.

(** A request whose mode is no label of the sample catalogue. *)
Definition unlisted_request : Request := {|
  tts_text := "hello";
  mode_checkbox_group := "sing";
  sft_dropdown := "speaker-1";
  prompt_text := "";
  prompt_wav_upload := None;
  prompt_wav_record := None;
  instruct_text := "";
  seed := 7;
  stream := false;
  speed := 1
|}.

(** The form of the sample environment when the model lists the given
    speakers. *)
Definition demo_form (spks : list string) : Form := {|
  tts_text_value := "placeholders.enter_synthesis_text";
  mode_value := "inference_mode_list.pretrained_voice";
  instruction_value := "instruct_dict.pretrained_voice";
  sft_choices := startup_sft_spk spks;
  sft_value := hd ""%string spks;
  stream_value := false;
  speed_value := 1;
  seed_value := 0;
  prompt_text_value := "";
  instruct_text_value := "";
  visibility :=
    {| sft_dropdown_visible := true;
       prompt_wav_upload_visible := false;
       prompt_wav_record_visible := false;
       prompt_text_visible := false |}
|}.

(** A recognizer that answers every file with one tagged transcript. *)
Definition demo_asr (path : string) : PyError + list Dict :=
  inr [[("key", path); ("text", "<|en|><|NEUTRAL|><|Speech|><|woitn|>hi there")]]%string.


(** The sample environment with files that hold a header and no sample:
    torchaudio reports 16 kHz and [load_wav] returns an empty tensor. *)
Definition empty_recording_env : Env := {|
  i18n_t := fun key => key;
  cosyvoice_instruct := false;
  cosyvoice_sample_rate := 22050;
  torchaudio_info := fun _ => Some 16000%Z;
  load_wav := fun _ _ => Some [];
  librosa_trim := SpecTrim.trim;
  cosyvoice_inference := fun _ _ => two_chunks
|}.

(** * Properties *)

Unset Implicit Arguments.

(** ** The generator monad *)

Lemma trace_bind_ok {A B} (m : Gen A) (k : A -> Gen B) a :
  outcome m = inr a -> trace (bind m k) = trace m ++ trace (k a).
Proof.
  unfold outcome, trace, bind. intros ->. reflexivity.
Qed.

Lemma outcome_bind_ok {A B} (m : Gen A) (k : A -> Gen B) a :
  outcome m = inr a -> outcome (bind m k) = outcome (k a).
Proof.
  unfold outcome, bind. intros ->. reflexivity.
Qed.

Lemma trace_bind_raise {A B} (m : Gen A) (k : A -> Gen B) e :
  outcome m = inl e -> trace (bind m k) = trace m.
Proof.
  unfold outcome, trace, bind. intros ->. reflexivity.
Qed.

Lemma outcome_bind_raise {A B} (m : Gen A) (k : A -> Gen B) e :
  outcome m = inl e -> outcome (bind m k) = inl e.
Proof.
  unfold outcome, bind. intros ->. reflexivity.
Qed.

Lemma Forall_bind {A B} (P : Event -> Prop) (m : Gen A) (k : A -> Gen B) :
  Forall P (trace m) -> (forall a, Forall P (trace (k a))) ->
  Forall P (trace (bind m k)).
Proof.
  intros Hm Hk. unfold trace, bind in *.
  destruct (snd m); simpl; auto.
  apply Forall_app. split; auto.
Qed.

Lemma Forall_when (P : Event -> Prop) b m :
  Forall P (trace m) -> Forall P (trace (when b m)).
Proof.
  destruct b; simpl; [auto | constructor].
Qed.

Lemma Forall_emit (P : Event -> Prop) ev : P ev -> Forall P (trace (emit ev)).
Proof.
  intros H. repeat constructor. exact H.
Qed.

Lemma Forall_ret {A} (P : Event -> Prop) (a : A) : Forall P (trace (ret a)).
Proof. constructor. Qed.

Lemma Forall_info_sample_rate (P : Event -> Prop) env pw :
  Forall P (trace (info_sample_rate env pw)).
Proof.
  unfold info_sample_rate.
  destruct pw as [path|]; [destruct (torchaudio_info env path)|]; constructor.
Qed.

Ltac trace_forall :=
  repeat first
    [ apply Forall_bind; [|intros]
    | apply Forall_when
    | apply Forall_info_sample_rate
    | apply Forall_ret
    | apply Forall_emit; exact I ].

(** ** Projections of a trace *)

Lemma yields_app a b : yields (a ++ b) = yields a ++ yields b.
Proof.
  induction a as [|ev a IH]; simpl; auto.
  destruct ev; simpl; rewrite ?IH; reflexivity.
Qed.

Lemma inferences_app a b : inferences (a ++ b) = inferences a ++ inferences b.
Proof.
  induction a as [|ev a IH]; simpl; auto.
  destruct ev; simpl; rewrite ?IH; reflexivity.
Qed.

Lemma seedings_app a b : seedings (a ++ b) = seedings a ++ seedings b.
Proof.
  induction a as [|ev a IH]; simpl; auto.
  destruct ev; simpl; rewrite ?IH; reflexivity.
Qed.

Lemma plain_inferences tr : Forall plain tr -> inferences tr = [].
Proof.
  induction 1 as [|ev tr Hev _ IH]; simpl; auto.
  destruct ev; simpl in *; auto; contradiction.
Qed.

Lemma plain_seedings tr : Forall plain tr -> seedings tr = [].
Proof.
  induction 1 as [|ev tr Hev _ IH]; simpl; auto.
  destruct ev; simpl in *; auto; contradiction.
Qed.

Lemma yields_map_Yield cs : yields (map Yield cs) = cs.
Proof.
  induction cs as [|c cs IH]; simpl; congruence.
Qed.

Lemma inferences_map_Yield cs : inferences (map Yield cs) = [].
Proof.
  induction cs as [|c cs IH]; simpl; auto.
Qed.

Lemma seedings_map_Yield cs : seedings (map Yield cs) = [].
Proof.
  induction cs as [|c cs IH]; simpl; auto.
Qed.

Lemma plain_map_Yield cs : Forall plain (map Yield cs).
Proof.
  induction cs as [|c cs IH]; simpl; constructor; simpl; auto.
Qed.

(** ** The relay loop *)

Lemma for_yield_trace env s :
  trace (for_yield env s) = map Yield (map (tag env) (emitted s)).
Proof.
  induction s as [| e | i rest IH]; [reflexivity | reflexivity |].
  change (for_yield env (Emits i rest))
    with (bind (emit (Yield (tag env i))) (fun _ => for_yield env rest)).
  rewrite trace_bind_ok with (a := tt) by reflexivity.
  rewrite IH. reflexivity.
Qed.

Lemma for_yield_outcome env s :
  outcome (for_yield env s) =
  match failure s with Some e => inl e | None => inr tt end.
Proof.
  induction s as [| e | i rest IH]; [reflexivity | reflexivity |].
  change (for_yield env (Emits i rest))
    with (bind (emit (Yield (tag env i))) (fun _ => for_yield env rest)).
  rewrite outcome_bind_ok with (a := tt) by reflexivity. exact IH.
Qed.

(** ** The checks never seed, never call the engine, never draw *)

Lemma checks_plain env r pw : Forall plain (trace (checks env r pw)).
Proof.
  unfold checks, yield_default. trace_forall.
Qed.

(** ** The call of the engine *)

Lemma seeded_inference_trace env r c :
  trace (seeded_inference env r c) =
  SetAllRandomSeed (seed r) :: Inference c ::
  map Yield (map (tag env) (emitted (cosyvoice_inference env (seed r) c))).
Proof.
  unfold seeded_inference.
  rewrite trace_bind_ok with (a := tt) by reflexivity.
  rewrite trace_bind_ok with (a := tt) by reflexivity.
  rewrite for_yield_trace. reflexivity.
Qed.

Lemma seeded_inference_outcome env r c :
  outcome (seeded_inference env r c) =
  match failure (cosyvoice_inference env (seed r) c) with
  | Some e => inl e
  | None => inr tt
  end.
Proof.
  unfold seeded_inference.
  rewrite outcome_bind_ok with (a := tt) by reflexivity.
  rewrite outcome_bind_ok with (a := tt) by reflexivity.
  apply for_yield_outcome.
Qed.

(** The two branches that need the reference recording: either loading or
    post-processing raises and nothing else happens, or the engine is called
    on the post-processed recording. *)
Lemma reference_branch env r pw msg (k : list Q -> EngineCall) :
  let m :=
    (emit (LoggingInfo msg) ;;
     speech <- call_load_wav env pw prompt_sr ;;
     prompt_speech_16k <- lift (postprocess env speech 60 220 440) ;;
     seeded_inference env r (k prompt_speech_16k))%gen in
  (exists pre e, m = (pre, inl e) /\ Forall plain pre /\ yields pre = []) \/
  (exists path speech processed,
     pw = Some path /\
     load_wav env path prompt_sr = Some speech /\
     postprocess env speech 60 220 440 = inr processed /\
     trace m = [LoggingInfo msg; LoadWav path prompt_sr]
               ++ trace (seeded_inference env r (k processed)) /\
     outcome m = outcome (seeded_inference env r (k processed))).
Proof.
  intros m. subst m. unfold call_load_wav.
  destruct pw as [path|].
  - destruct (load_wav env path prompt_sr) as [speech|] eqn:Hload.
    + destruct (postprocess env speech 60 220 440) as [e|processed] eqn:Hpost.
      * left. exists [LoggingInfo msg; LoadWav path prompt_sr], e.
        unfold bind; simpl. rewrite Hpost. simpl.
        repeat split; repeat constructor.
      * right. exists path, speech, processed.
        repeat split; auto; unfold trace, outcome, bind; simpl;
          rewrite Hpost; reflexivity.
    + left. exists [LoggingInfo msg], (LoadError (Some path)).
      repeat split; repeat constructor.
  - left. exists [LoggingInfo msg], (LoadError None).
    repeat split; repeat constructor.
Qed.

(** Lines 177-206 as a whole: the run either raises before the engine is
    reached, having shown nothing to the caller, or consists of some plain
    events followed by one seeded engine call. *)
Lemma inference_run env r pw :
  (exists pre e, inference env r pw = (pre, inl e) /\
                 Forall plain pre /\ yields pre = []) \/
  (exists pre c,
     Forall plain pre /\ yields pre = [] /\
     trace (inference env r pw) = pre ++ trace (seeded_inference env r c) /\
     outcome (inference env r pw) = outcome (seeded_inference env r c)).
Proof.
  unfold inference.
  destruct (String.eqb _ _).
  { right. exists [LoggingInfo "get sft inference request"]. eexists.
    split; [repeat constructor | split; [reflexivity | split; reflexivity]]. }
  destruct (String.eqb _ _).
  { destruct (reference_branch env r pw "get zero_shot inference request"
      (fun p => inference_zero_shot (tts_text r) (prompt_text r) p
                  (stream r) (speed r)))
      as [H | (path & speech & processed & _ & _ & _ & Ht & Ho)];
      [left; exact H | right].
    exists [LoggingInfo "get zero_shot inference request";
            LoadWav path prompt_sr]. eexists.
    split; [repeat constructor
           | split; [reflexivity | split; [exact Ht | exact Ho]]]. }
  destruct (String.eqb _ _).
  { destruct (reference_branch env r pw "get cross_lingual inference request"
      (fun p => inference_cross_lingual (tts_text r) p (stream r) (speed r)))
      as [H | (path & speech & processed & _ & _ & _ & Ht & Ho)];
      [left; exact H | right].
    exists [LoggingInfo "get cross_lingual inference request";
            LoadWav path prompt_sr]. eexists.
    split; [repeat constructor
           | split; [reflexivity | split; [exact Ht | exact Ho]]]. }
  right. exists [LoggingInfo "get instruct inference request"]. eexists.
  split; [repeat constructor | split; [reflexivity | split; reflexivity]].
Qed.

(** What a run of [generate_audio] looks like once the checks did not
    raise. *)
Lemma generate_audio_after_checks env r :
  outcome (checks env r (prompt_wav_of r)) = inr tt ->
  trace (generate_audio env r) =
    trace (checks env r (prompt_wav_of r)) ++
    trace (inference env r (prompt_wav_of r)) /\
  outcome (generate_audio env r) = outcome (inference env r (prompt_wav_of r)).
Proof.
  intros H. unfold generate_audio. fold (prompt_wav_of r). split.
  - apply trace_bind_ok with (a := tt). exact H.
  - apply outcome_bind_ok with (a := tt). exact H.
Qed.

Lemma generate_audio_checks_raise env r e :
  outcome (checks env r (prompt_wav_of r)) = inl e ->
  trace (generate_audio env r) = trace (checks env r (prompt_wav_of r)) /\
  outcome (generate_audio env r) = inl e.
Proof.
  intros H. unfold generate_audio. fold (prompt_wav_of r). split.
  - eapply trace_bind_raise. exact H.
  - eapply outcome_bind_raise. exact H.
Qed.

Lemma seeded_inference_inferences env r c :
  inferences (trace (seeded_inference env r c)) = [c].
Proof.
  rewrite seeded_inference_trace. simpl.
  rewrite inferences_map_Yield. reflexivity.
Qed.

Lemma seeded_inference_yields env r c :
  yields (trace (seeded_inference env r c)) =
  map (tag env) (emitted (cosyvoice_inference env (seed r) c)).
Proof.
  rewrite seeded_inference_trace. simpl. apply yields_map_Yield.
Qed.

(** A run of [generate_audio] whose checks did not raise: either it raises
    before the engine is reached, or it is made of plain events, then one
    seeding, then one engine call, then the relayed chunks. *)
Lemma generate_audio_run env r :
  outcome (checks env r (prompt_wav_of r)) = inr tt ->
  (exists e, outcome (generate_audio env r) = inl e /\
             Forall plain (trace (generate_audio env r)) /\
             yields (trace (generate_audio env r)) =
             yields (trace (checks env r (prompt_wav_of r)))) \/
  (exists pre c,
     Forall plain pre /\
     yields pre = yields (trace (checks env r (prompt_wav_of r))) /\
     trace (generate_audio env r) =
       pre ++ trace (seeded_inference env r c) /\
     outcome (generate_audio env r) = outcome (seeded_inference env r c)).
Proof.
  intros Hok.
  destruct (generate_audio_after_checks env r Hok) as [Ht Ho].
  pose proof (checks_plain env r (prompt_wav_of r)) as Hplain.
  destruct (inference_run env r (prompt_wav_of r))
    as [(pre & e & Hrun & Hpre & Hy) | (pre & c & Hpre & Hy & Htr & Hout)].
  - left. exists e. rewrite Ht, Ho, Hrun. simpl.
    split; [reflexivity | split].
    + apply Forall_app. split; assumption.
    + rewrite yields_app, Hy, app_nil_r. reflexivity.
  - right. exists (trace (checks env r (prompt_wav_of r)) ++ pre), c.
    split; [apply Forall_app; split; assumption | split].
    + rewrite yields_app, Hy, app_nil_r. reflexivity.
    + split; [rewrite Ht, Htr, app_assoc; reflexivity | congruence].
Qed.

(** When the checks raise, nothing of lines 177-206 runs. *)
Lemma generate_audio_plain_on_raise env r e :
  outcome (checks env r (prompt_wav_of r)) = inl e ->
  Forall plain (trace (generate_audio env r)).
Proof.
  intros H. destruct (generate_audio_checks_raise env r e H) as [-> _].
  apply checks_plain.
Qed.

(** ** The reference recording (lines 118-123) *)

(** C10: an uploaded recording wins over a recorded one; the recorded one is
    used when nothing was uploaded; with neither, the reference is [None].
    [generate_audio] hands this choice to its checks and to the engine
    call. *)
Theorem select_prompt_wav_priority :
  (forall u record, select_prompt_wav (Some u) record = Some u) /\
  (forall v, select_prompt_wav None (Some v) = Some v) /\
  select_prompt_wav None None = None /\
  (forall env r,
     generate_audio env r =
     bind (checks env r
             (select_prompt_wav (prompt_wav_upload r) (prompt_wav_record r)))
          (fun _ =>
             inference env r
               (select_prompt_wav (prompt_wav_upload r) (prompt_wav_record r)))).
Proof.
  repeat split.
Qed.

(** ** generate_seed *)

Lemma randint_range a b raw : (a <= b)%Z -> (a <= randint a b raw <= b)%Z.
Proof.
  intros Hab. unfold randint.
  pose proof (Z.mod_pos_bound raw (b - a + 1)) as H. lia.
Qed.

Lemma generate_audio_no_randint env r a b :
  ~ In (RandInt a b) (trace (generate_audio env r)).
Proof.
  assert (Hnot : forall tr, Forall plain tr -> ~ In (RandInt a b) tr).
  { intros tr Hall Hin. rewrite Forall_forall in Hall.
    exact (Hall _ Hin). }
  destruct (outcome (checks env r (prompt_wav_of r))) as [e|[]] eqn:Hc.
  - apply Hnot. eapply generate_audio_plain_on_raise. exact Hc.
  - destruct (generate_audio_run env r Hc)
      as [(e & _ & Hall & _) | (pre & c & Hpre & _ & Htr & _)].
    + apply Hnot, Hall.
    + rewrite Htr, seeded_inference_trace. intros Hin.
      apply in_app_or in Hin. destruct Hin as [Hin | Hin].
      * exact (Hnot _ Hpre Hin).
      * destruct Hin as [Hin | [Hin | Hin]]; try discriminate.
        apply in_map_iff in Hin. destruct Hin as (ch & Hch & _).
        discriminate.
Qed.

(** C9: whatever the random source delivers, [generate_seed] returns an
    update whose value is an integer from 1 to 100000000, drawn by one call
    of [random.randint(1, 100000000)]; and no run of [generate_audio] draws
    a random number: the seed reaches it only through the request. *)
Theorem generate_seed_range :
  (forall raw,
     exists u,
       outcome (generate_seed raw) = inr u /\
       update_type u = "update"%string /\
       (1 <= update_value u <= 100000000)%Z /\
       trace (generate_seed raw) = [RandInt 1 100000000]) /\
  (forall env r a b, ~ In (RandInt a b) (trace (generate_audio env r))).
Proof.
  split.
  - intros raw. eexists. split; [reflexivity | split; [reflexivity | split]].
    + apply (randint_range 1 100000000 raw). lia.
    + reflexivity.
  - apply generate_audio_no_randint.
Qed.

(** ** Requests that reach the engine *)

Lemma labels_differ env m k :
  distinct_labels env -> m <> k -> label env m <> label env k.
Proof.
  unfold distinct_labels, all_modes. simpl. intros H.
  apply NoDup_cons_iff in H. destruct H as [H1 H].
  apply NoDup_cons_iff in H. destruct H as [H2 H].
  apply NoDup_cons_iff in H. destruct H as [H3 _].
  simpl in H1, H2, H3.
  destruct m, k; intros Hmk E; try (exfalso; apply Hmk; reflexivity);
    intuition congruence.
Qed.

Lemma label_eqb_diff env m k :
  distinct_labels env -> m <> k ->
  String.eqb (label env m) (label env k) = false.
Proof.
  intros Hd Hmk. apply String.eqb_neq. apply labels_differ; assumption.
Qed.

Ltac decide_labels env Hd :=
  change (i18n_t env "inference_mode_list.pretrained_voice")
    with (label env PretrainedVoice);
  change (i18n_t env "inference_mode_list.3s_fast_replication")
    with (label env FastReplication);
  change (i18n_t env "inference_mode_list.crosslingual")
    with (label env CrossLingual);
  change (i18n_t env "inference_mode_list.natural_language_control")
    with (label env InstructControl);
  repeat match goal with
  | |- context [String.eqb (label env ?a) (label env ?a)] =>
      rewrite (String.eqb_refl (label env a))
  | |- context [String.eqb (label env ?a) (label env ?b)] =>
      rewrite (label_eqb_diff env a b Hd) by discriminate
  end.

Lemma reference_branch_ok env r path speech processed msg
    (k : list Q -> EngineCall) :
  load_wav env path prompt_sr = Some speech ->
  postprocess env speech 60 220 440 = inr processed ->
  (emit (LoggingInfo msg) ;;
   speech <- call_load_wav env (Some path) prompt_sr ;;
   prompt_speech_16k <- lift (postprocess env speech 60 220 440) ;;
   seeded_inference env r (k prompt_speech_16k))%gen =
  ([LoggingInfo msg; LoadWav path prompt_sr]
     ++ trace (seeded_inference env r (k processed)),
   outcome (seeded_inference env r (k processed))).
Proof.
  intros Hload Hpost. unfold call_load_wav. rewrite Hload.
  unfold bind; simpl. rewrite Hpost. reflexivity.
Qed.

(** The engine call made by lines 177-206 for each of the four modes. *)
Lemma inference_operation env r pw m processedAudio :
  distinct_labels env ->
  mode_checkbox_group r = label env m ->
  reference_ready env pw m processedAudio ->
  exists pre,
    Forall plain pre /\ yields pre = [] /\
    trace (inference env r pw) =
      pre ++ trace (seeded_inference env r (spec_operation m r processedAudio)) /\
    outcome (inference env r pw) =
      outcome (seeded_inference env r (spec_operation m r processedAudio)).
Proof.
  intros Hd Hmode Hready. unfold inference. cbv zeta. rewrite Hmode.
  destruct m; simpl in Hready; decide_labels env Hd.
  - exists [LoggingInfo "get sft inference request"].
    split; [repeat constructor | split; [reflexivity | split; reflexivity]].
  - destruct Hready as (path & speech & -> & Hload & Hpost).
    rewrite (reference_branch_ok env r path speech processedAudio
               "get zero_shot inference request"
               (fun p => inference_zero_shot (tts_text r) (prompt_text r) p
                           (stream r) (speed r)) Hload Hpost).
    exists [LoggingInfo "get zero_shot inference request";
            LoadWav path prompt_sr].
    split; [repeat constructor | split; [reflexivity | split; reflexivity]].
  - destruct Hready as (path & speech & -> & Hload & Hpost).
    rewrite (reference_branch_ok env r path speech processedAudio
               "get cross_lingual inference request"
               (fun p => inference_cross_lingual (tts_text r) p
                           (stream r) (speed r)) Hload Hpost).
    exists [LoggingInfo "get cross_lingual inference request";
            LoadWav path prompt_sr].
    split; [repeat constructor | split; [reflexivity | split; reflexivity]].
  - exists [LoggingInfo "get instruct inference request"].
    split; [repeat constructor | split; [reflexivity | split; reflexivity]].
Qed.

(** C4: under a catalogue with four different labels, a request whose
    checks do not raise calls the engine exactly once, with the operation
    and the arguments the specification assigns to its mode; for fast
    replication and cross-lingual synthesis the recording argument is the
    reference loaded at 16 kHz and post-processed. *)
Theorem dispatch_calls_assigned_operation env r m processedAudio :
  distinct_labels env ->
  mode_checkbox_group r = label env m ->
  outcome (checks env r (prompt_wav_of r)) = inr tt ->
  reference_ready env (prompt_wav_of r) m processedAudio ->
  inferences (trace (generate_audio env r)) =
    [spec_operation m r processedAudio].
Proof.
  intros Hd Hmode Hok Hready.
  destruct (generate_audio_after_checks env r Hok) as [-> _].
  destruct (inference_operation env r (prompt_wav_of r) m processedAudio Hd Hmode Hready)
    as (pre & Hpre & _ & -> & _).
  rewrite !inferences_app, seeded_inference_inferences.
  rewrite (plain_inferences _ (checks_plain env r (prompt_wav_of r))).
  rewrite (plain_inferences _ Hpre). reflexivity.
Qed.

(** Whenever a run of [generate_audio] calls the engine, the seed is
    applied once, immediately before the one call. *)
Lemma engine_call_is_seeded_once env r :
  inferences (trace (generate_audio env r)) <> [] ->
  exists pre c post,
    trace (generate_audio env r) =
      pre ++ SetAllRandomSeed (seed r) :: Inference c :: post /\
    Forall plain pre /\ Forall plain post /\
    seedings (trace (generate_audio env r)) = [seed r] /\
    inferences (trace (generate_audio env r)) = [c].
Proof.
  intros Hcalled.
  destruct (outcome (checks env r (prompt_wav_of r))) as [e|[]] eqn:Hc.
  { exfalso. apply Hcalled. apply plain_inferences.
    eapply generate_audio_plain_on_raise. exact Hc. }
  destruct (generate_audio_run env r Hc)
    as [(e & _ & Hall & _) | (pre & c & Hpre & _ & Htr & _)].
  { exfalso. apply Hcalled. apply plain_inferences. exact Hall. }
  rewrite seeded_inference_trace in Htr.
  exists pre, c,
    (map Yield (map (tag env) (emitted (cosyvoice_inference env (seed r) c)))).
  split; [exact Htr | split; [exact Hpre | split; [apply plain_map_Yield|]]].
  rewrite Htr, seedings_app, inferences_app. simpl.
  rewrite (plain_seedings _ Hpre), (plain_inferences _ Hpre).
  rewrite seedings_map_Yield, inferences_map_Yield. split; reflexivity.
Qed.

Lemma postprocess_error env speech top_db hop_length win_length e :
  postprocess env speech top_db hop_length win_length = inl e ->
  e = EmptyReduction.
Proof.
  unfold postprocess.
  destruct (abs_max (librosa_trim env speech top_db win_length hop_length));
    [discriminate|].
  intros H. injection H as <-. reflexivity.
Qed.

(** How the two reference branches end when they do not reach the engine. *)
Lemma reference_branch_stops env r pw msg (k : list Q -> EngineCall) :
  let m :=
    (emit (LoggingInfo msg) ;;
     speech <- call_load_wav env pw prompt_sr ;;
     prompt_speech_16k <- lift (postprocess env speech 60 220 440) ;;
     seeded_inference env r (k prompt_speech_16k))%gen in
  inferences (trace m) = [] ->
  outcome m = inl (LoadError pw) \/ outcome m = inl EmptyReduction.
Proof.
  intros m. subst m. unfold call_load_wav.
  destruct pw as [path|]; [|intros _; left; reflexivity].
  destruct (load_wav env path prompt_sr) as [speech|] eqn:Hload;
    [|intros _; left; reflexivity].
  destruct (postprocess env speech 60 220 440) as [e|processed] eqn:Hpost.
  - intros _. right.
    pose proof (postprocess_error env speech 60 220 440 e Hpost) as ->.
    unfold outcome, bind; simpl. rewrite Hpost. reflexivity.
  - intros Hnone. exfalso.
    pose proof (reference_branch_ok env r path speech processed msg k
                  Hload Hpost) as Hrun.
    unfold call_load_wav in Hrun. rewrite Hload in Hrun.
    rewrite Hrun in Hnone.
    change (inferences ([LoggingInfo msg; LoadWav path prompt_sr]
                          ++ trace (seeded_inference env r (k processed)))
            = []) in Hnone.
    rewrite inferences_app, seeded_inference_inferences in Hnone.
    destruct (inferences [LoggingInfo msg; LoadWav path prompt_sr]);
      discriminate.
Qed.

Lemma inference_stops env r pw :
  inferences (trace (inference env r pw)) = [] ->
  in_list (mode_checkbox_group r)
    [label env FastReplication; label env CrossLingual] = true /\
  (outcome (inference env r pw) = inl (LoadError pw) \/
   outcome (inference env r pw) = inl EmptyReduction).
Proof.
  unfold inference, in_list. cbv zeta. simpl existsb.
  change (i18n_t env "inference_mode_list.3s_fast_replication")
    with (label env FastReplication).
  change (i18n_t env "inference_mode_list.crosslingual")
    with (label env CrossLingual).
  destruct (String.eqb (mode_checkbox_group r) _).
  { rewrite trace_bind_ok with (a := tt) by reflexivity.
    rewrite inferences_app, seeded_inference_inferences.
    intros H. apply app_eq_nil in H. destruct H as [_ H]. discriminate. }
  destruct (String.eqb (mode_checkbox_group r) (label env FastReplication)).
  { intros H. split; [reflexivity|].
    exact (reference_branch_stops env r pw _ _ H). }
  destruct (String.eqb (mode_checkbox_group r) (label env CrossLingual)).
  { intros H. split; [reflexivity|].
    exact (reference_branch_stops env r pw _ _ H). }
  rewrite trace_bind_ok with (a := tt) by reflexivity.
  rewrite inferences_app, seeded_inference_inferences.
  intros H. apply app_eq_nil in H. destruct H as [_ H]. discriminate.
Qed.

(** C7, as the code has it: a run of [generate_audio] applies the seed
    exactly when it calls the engine.  When it calls the engine, the trace
    is some events that neither seed nor call the engine, then
    [set_all_random_seed(seed)] with the request's seed, then at once the
    engine call, then events that neither seed nor call the engine: one
    seeding, immediately before the one call.  When it does not call the
    engine it never seeds; for a run whose checks did not raise this
    happens only in the two reference modes, when [load_wav] or
    [postprocess] raises before line 187 or 195 is reached. *)
Theorem seed_exactly_when_engine_called env r :
  (inferences (trace (generate_audio env r)) <> [] ->
   exists pre c post,
     trace (generate_audio env r) =
       pre ++ SetAllRandomSeed (seed r) :: Inference c :: post /\
     Forall plain pre /\ Forall plain post /\
     seedings (trace (generate_audio env r)) = [seed r] /\
     inferences (trace (generate_audio env r)) = [c]) /\
  (inferences (trace (generate_audio env r)) = [] ->
   seedings (trace (generate_audio env r)) = []) /\
  (outcome (checks env r (prompt_wav_of r)) = inr tt ->
   inferences (trace (generate_audio env r)) = [] ->
   in_list (mode_checkbox_group r)
     [label env FastReplication; label env CrossLingual] = true /\
   (outcome (generate_audio env r) = inl (LoadError (prompt_wav_of r)) \/
    outcome (generate_audio env r) = inl EmptyReduction)).
Proof.
  split; [|split].
  - intros Hcalled.
    destruct (engine_call_is_seeded_once env r Hcalled)
      as (pre & c & post & Htr & Hpre & Hpost & Hseed & Hcall).
    exists pre, c, post. auto.
  - intros Hnone.
    destruct (outcome (checks env r (prompt_wav_of r))) as [e|[]] eqn:Hc.
    { apply plain_seedings. eapply generate_audio_plain_on_raise. exact Hc. }
    destruct (generate_audio_run env r Hc)
      as [(e & _ & Hall & _) | (pre & c & Hpre & _ & Htr & _)].
    { apply plain_seedings. exact Hall. }
    exfalso. rewrite Htr, inferences_app, seeded_inference_inferences in Hnone.
    apply app_eq_nil in Hnone. destruct Hnone as [_ H]. discriminate.
  - intros Hok Hnone.
    destruct (generate_audio_after_checks env r Hok) as [Ht Ho].
    rewrite Ht, inferences_app in Hnone.
    apply app_eq_nil in Hnone. destruct Hnone as [_ Hnone].
    rewrite Ho. apply inference_stops. exact Hnone.
Qed.

(** C7, counterexample: a fast-replication request with an empty 16 kHz
    recording passes the checks and enters the dispatch branch, which logs
    the request and loads the recording; [postprocess] then raises on the
    peak of an empty tensor and the seed is never applied. *)
Lemma empty_recording_is_never_seeded :
  passes_checks empty_recording_env replication_request /\
  trace (generate_audio empty_recording_env replication_request) =
    [LoggingInfo "get zero_shot inference request";
     LoadWav "upload.wav" 16000] /\
  seedings (trace (generate_audio empty_recording_env replication_request))
    = [] /\
  outcome (generate_audio empty_recording_env replication_request) =
    inl EmptyReduction.
Proof.
  repeat split; vm_compute; reflexivity.
Qed.

Lemma seed_exactly_when_engine_called_witness :
  (inferences (trace (generate_audio demo_env replication_request)) <> [] /\
   exists pre c post,
     trace (generate_audio demo_env replication_request) =
       pre ++ SetAllRandomSeed 42 :: Inference c :: post /\
     Forall plain pre /\ Forall plain post /\
     seedings (trace (generate_audio demo_env replication_request)) =
       [42%Z] /\
     inferences (trace (generate_audio demo_env replication_request)) =
       [c]) /\
  (inferences (trace (generate_audio empty_recording_env replication_request))
     = [] /\
   seedings (trace (generate_audio empty_recording_env replication_request))
     = [] /\
   (outcome (generate_audio empty_recording_env replication_request) =
      inl (LoadError (prompt_wav_of replication_request)) \/
    outcome (generate_audio empty_recording_env replication_request) =
      inl EmptyReduction)).
Proof.
  assert (Hcalled :
    inferences (trace (generate_audio demo_env replication_request)) <> [])
    by (vm_compute; discriminate).
  assert (Hnone :
    inferences (trace (generate_audio empty_recording_env
                         replication_request)) = [])
    by (vm_compute; reflexivity).
  assert (Hok : outcome (checks empty_recording_env replication_request
                           (prompt_wav_of replication_request)) = inr tt)
    by (vm_compute; reflexivity).
  destruct (seed_exactly_when_engine_called demo_env replication_request)
    as (Hseeded & _ & _).
  destruct (seed_exactly_when_engine_called empty_recording_env
              replication_request) as (_ & Hunseeded & Hwhy).
  split.
  - split; [exact Hcalled | exact (Hseeded Hcalled)].
  - split; [exact Hnone | split; [exact (Hunseeded Hnone)|]].
    destruct (Hwhy Hok Hnone) as [_ Hend]. exact Hend.
Defined.

Lemma called_operation env r c :
  outcome (checks env r (prompt_wav_of r)) = inr tt ->
  In c (inferences (trace (generate_audio env r))) ->
  exists pre,
    Forall plain pre /\
    yields pre = yields (trace (checks env r (prompt_wav_of r))) /\
    trace (generate_audio env r) = pre ++ trace (seeded_inference env r c) /\
    outcome (generate_audio env r) = outcome (seeded_inference env r c).
Proof.
  intros Hok Hin.
  destruct (generate_audio_run env r Hok)
    as [(e & _ & Hall & _) | (pre & c' & Hpre & Hy & Htr & Hout)].
  { rewrite (plain_inferences _ Hall) in Hin. contradiction. }
  rewrite Htr, inferences_app, (plain_inferences _ Hpre) in Hin.
  rewrite seeded_inference_inferences in Hin. simpl in Hin.
  destruct Hin as [<- | []].
  exists pre. repeat split; assumption.
Qed.

(** C2, as the code has it: for a request that passes the checks and calls
    the engine, the caller receives exactly the engine's chunks, in the
    order of emission, each flattened and paired with the engine's sample
    rate.  Every yielded value is a tuple of two items, the rate and the
    samples; none carries a final flag. *)
Theorem relays_engine_chunks env r c :
  passes_checks env r ->
  In c (inferences (trace (generate_audio env r))) ->
  yields (trace (generate_audio env r)) =
    map (tag env) (emitted (cosyvoice_inference env (seed r) c)) /\
  Forall (fun ch => fst ch = cosyvoice_sample_rate env /\
                    List.length (as_tuple ch) = 2%nat /\
                    ~ carries_final ch)
         (yields (trace (generate_audio env r))).
Proof.
  intros [Hok Hquiet] Hin.
  destruct (called_operation env r c Hok Hin) as (pre & _ & Hy & Htr & _).
  assert (Heq : yields (trace (generate_audio env r)) =
                map (tag env) (emitted (cosyvoice_inference env (seed r) c))).
  { rewrite Htr, yields_app, Hy, Hquiet, seeded_inference_yields.
    reflexivity. }
  split; [exact Heq|]. rewrite Heq.
  apply Forall_forall. intros ch Hch.
  apply in_map_iff in Hch. destruct Hch as (i & <- & _).
  split; [reflexivity | split; [reflexivity|]].
  unfold carries_final. simpl. intros [H | [H | []]]; discriminate.
Qed.

(** C8: when the engine generator called by a request that passed the
    checks raises [e] after some chunks, the caller receives exactly those
    chunks, in order, and then the generator ends by raising that same [e];
    the engine was called once. *)
Theorem engine_error_ends_stream env r c e :
  passes_checks env r ->
  In c (inferences (trace (generate_audio env r))) ->
  failure (cosyvoice_inference env (seed r) c) = Some e ->
  yields (trace (generate_audio env r)) =
    map (tag env) (emitted (cosyvoice_inference env (seed r) c)) /\
  outcome (generate_audio env r) = inl e /\
  inferences (trace (generate_audio env r)) = [c] /\
  exists pre,
    trace (generate_audio env r) =
      pre ++ map Yield
               (map (tag env) (emitted (cosyvoice_inference env (seed r) c))).
Proof.
  intros [Hok Hquiet] Hin Hfail.
  destruct (called_operation env r c Hok Hin) as (pre & Hpre & Hy & Htr & Ho).
  split; [|split; [|split]].
  - rewrite Htr, yields_app, Hy, Hquiet, seeded_inference_yields. reflexivity.
  - rewrite Ho, seeded_inference_outcome, Hfail. reflexivity.
  - rewrite Htr, inferences_app, (plain_inferences _ Hpre).
    apply seeded_inference_inferences.
  - exists (pre ++ [SetAllRandomSeed (seed r); Inference c]).
    rewrite Htr, seeded_inference_trace, <- app_assoc. reflexivity.
Qed.

(** ** Requests that fail a check *)

Ltac split_when :=
  repeat match goal with
  | |- context [when ?b _] => destruct b eqn:?; cbn [when]
  end.

(** In every environment, a fast-replication or cross-lingual request
    without a reference recording makes the generator raise, in the checks,
    on [torchaudio.info(None)]. *)
Lemma missing_reference_always_raises env r m :
  m = FastReplication \/ m = CrossLingual ->
  mode_checkbox_group r = label env m ->
  prompt_wav_of r = None ->
  outcome (generate_audio env r) = inl (InfoError None).
Proof.
  intros Hm Hmode Hnone.
  assert (Hin : in_list (label env m)
                  [label env FastReplication; label env CrossLingual] = true).
  { unfold in_list. simpl.
    destruct Hm as [-> | ->]; rewrite String.eqb_refl; simpl;
      rewrite ?orb_true_r; reflexivity. }
  unfold generate_audio. fold (prompt_wav_of r). rewrite Hnone.
  apply outcome_bind_raise.
  unfold checks. cbv zeta. rewrite Hmode.
  change (i18n_t env "inference_mode_list.3s_fast_replication")
    with (label env FastReplication).
  change (i18n_t env "inference_mode_list.crosslingual")
    with (label env CrossLingual).
  rewrite Hin.
  rewrite outcome_bind_ok with (a := tt) by (split_when; reflexivity).
  rewrite outcome_bind_ok with (a := tt) by (split_when; reflexivity).
  reflexivity.
Qed.

(** In every environment whose catalogue tells the modes apart, a
    pretrained-voice request with an empty speaker gets the placeholder and
    then whatever the engine produces for the empty speaker. *)
Lemma empty_speaker_always_reaches_engine env r :
  distinct_labels env ->
  mode_checkbox_group r = label env PretrainedVoice ->
  sft_dropdown r = ""%string ->
  yields (trace (generate_audio env r)) =
    (cosyvoice_sample_rate env, default_data env)
    :: map (tag env)
         (emitted (cosyvoice_inference env (seed r)
                     (inference_sft (tts_text r) "" (stream r) (speed r)))) /\
  inferences (trace (generate_audio env r)) =
    [inference_sft (tts_text r) "" (stream r) (speed r)].
Proof.
  intros Hd Hmode Hspk.
  assert (Hchecks :
    outcome (checks env r (prompt_wav_of r)) = inr tt /\
    yields (trace (checks env r (prompt_wav_of r))) =
      [(cosyvoice_sample_rate env, default_data env)]).
  { unfold checks. cbv zeta. rewrite Hmode, Hspk. unfold in_list. simpl existsb.
    decide_labels env Hd. simpl orb. cbn [when String.eqb].
    split_when; split; reflexivity. }
  destruct Hchecks as [Hok Hy].
  destruct (generate_audio_after_checks env r Hok) as [Ht _].
  destruct (inference_operation env r (prompt_wav_of r) PretrainedVoice []
              Hd Hmode I) as (pre & Hpre & Hypre & Htr & _).
  simpl spec_operation in Htr. rewrite Hspk in Htr.
  rewrite Ht, Htr. split.
  - rewrite !yields_app, Hy, Hypre, seeded_inference_yields. reflexivity.
  - rewrite !inferences_app, seeded_inference_inferences.
    rewrite (plain_inferences _ (checks_plain env r (prompt_wav_of r))).
    rewrite (plain_inferences _ Hpre). reflexivity.
Qed.

(** C1: with an empty speaker the checks warn and yield the silent
    placeholder, but the generator goes on: the engine is seeded and called
    with the empty speaker and its two chunks follow the placeholder. *)
Theorem empty_speaker_still_synthesizes :
  trace (checks demo_env empty_speaker_request None) =
    [GrWarning "warnings.pretrained_model_empty";
     Yield (22050%Z, default_data demo_env)] /\
  inferences (trace (generate_audio demo_env empty_speaker_request)) =
    [inference_sft "hello" "" false 1] /\
  yields (trace (generate_audio demo_env empty_speaker_request)) =
    [(22050%Z, default_data demo_env);
     (22050%Z, [0.25; 0.5]%Q);
     (22050%Z, [-0.5]%Q)] /\
  outcome (generate_audio demo_env empty_speaker_request) = inr tt.
Proof.
  repeat split; vm_compute; reflexivity.
Qed.

(** C3: without a reference recording the fast-replication checks warn and
    yield the placeholder, and then ask torchaudio for the sample rate of
    [None]: the generator ends by raising, inside the checks, before any
    engine call. *)
Theorem missing_reference_raises :
  trace (checks demo_env no_reference_request None) =
    [GrWarning "warnings.prompt_audio_empty";
     Yield (22050%Z, default_data demo_env)] /\
  outcome (checks demo_env no_reference_request None) = inl (InfoError None) /\
  outcome (generate_audio demo_env no_reference_request) =
    inl (InfoError None) /\
  inferences (trace (generate_audio demo_env no_reference_request)) = [].
Proof.
  repeat split; vm_compute; reflexivity.
Qed.

(** ** postprocess *)

Lemma abs_max_none l : abs_max l = None -> l = [].
Proof.
  destruct l as [|x rest]; simpl; auto.
  destruct (abs_max rest); discriminate.
Qed.

Lemma abs_max_upper l :
  forall m, abs_max l = Some m -> forall x, In x l -> (Qabs x <= m)%Q.
Proof.
  induction l as [|y rest IH]; simpl; intros m Hm x Hin; [contradiction|].
  destruct (abs_max rest) as [m'|] eqn:Hrest.
  - injection Hm as <-. destruct Hin as [<- | Hin].
    + apply Q.le_max_l.
    + apply Qle_trans with m'; [apply (IH m' eq_refl x Hin) | apply Q.le_max_r].
  - injection Hm as <-. apply abs_max_none in Hrest. subst rest.
    destruct Hin as [<- | []]. apply Qle_refl.
Qed.

Lemma abs_max_attained l :
  forall m, abs_max l = Some m -> exists x, In x l /\ (Qabs x == m)%Q.
Proof.
  induction l as [|y rest IH]; simpl; intros m Hm; [discriminate|].
  destruct (abs_max rest) as [m'|] eqn:Hrest.
  - injection Hm as <-.
    destruct (Q.max_dec (Qabs y) m') as [E | E].
    + exists y. split; [left; reflexivity | symmetry; exact E].
    + destruct (IH m' eq_refl) as (x & Hin & Hx).
      exists x. split; [right; exact Hin|]. rewrite E. exact Hx.
  - injection Hm as <-. exists y. split; [left; reflexivity | reflexivity].
Qed.


Lemma max_val_pos : (0 < max_val)%Q.
Proof. reflexivity. Qed.

Lemma Qabs_scaled x peak :
  (0 < peak)%Q ->
  (Qabs (x / peak * max_val) == Qabs x / peak * max_val)%Q.
Proof.
  intros Hpeak. unfold Qdiv.
  rewrite !Qabs_Qmult, Qabs_Qinv.
  rewrite (Qabs_pos peak) by (apply Qlt_le_weak; exact Hpeak).
  rewrite (Qabs_pos max_val) by (apply Qlt_le_weak; exact max_val_pos).
  reflexivity.
Qed.

Lemma scaled_below_ceiling x peak :
  (0 < peak)%Q -> (Qabs x <= peak)%Q ->
  (Qabs (x / peak * max_val) <= max_val)%Q.
Proof.
  intros Hpeak Hx. rewrite (Qabs_scaled x peak Hpeak).
  rewrite <- (Qmult_1_l max_val) at 2.
  apply Qmult_le_compat_r; [|apply Qlt_le_weak; exact max_val_pos].
  apply Qle_shift_div_r; [exact Hpeak|].
  rewrite Qmult_1_l. exact Hx.
Qed.


Lemma pad_zero sample_rate x : In x (pad sample_rate) -> x = 0%Q.
Proof.
  unfold pad. apply repeat_spec.
Qed.

(** Whatever [postprocess] returns stays within the ceiling. *)
Lemma postprocess_bounded env speech top_db hop_length win_length out :
  postprocess env speech top_db hop_length win_length = inr out ->
  forall x, In x out -> (Qabs x <= max_val)%Q.
Proof.
  unfold postprocess.
  destruct (abs_max (librosa_trim env speech top_db win_length hop_length))
    as [peak|] eqn:Hpeak; [|discriminate].
  intros H x Hin. injection H as <-.
  apply in_app_or in Hin. destruct Hin as [Hin | Hin].
  - destruct (Qle_bool peak max_val) eqn:Hle; simpl in Hin.
    + apply Qle_bool_iff in Hle.
      apply Qle_trans with peak; [|exact Hle].
      apply (abs_max_upper _ peak Hpeak x Hin).
    + apply in_map_iff in Hin. destruct Hin as (y & <- & Hy).
      assert (Hlt : (max_val < peak)%Q).
      { apply Qnot_le_lt. intros Hc. apply Qle_bool_iff in Hc. congruence. }
      apply scaled_below_ceiling.
      * apply Qlt_trans with max_val; [exact max_val_pos | exact Hlt].
      * apply (abs_max_upper _ peak Hpeak y Hy).
  - apply pad_zero in Hin. subst x. discriminate.
Qed.



(** C5, as the code has it: a second pass over the output of [postprocess]
    never rescales (every sample is already within 0.8, as long as the trim
    returns samples of its input) and always appends one more pad to what
    the trim keeps.  When the second trim removes nothing and the pad is
    not empty, the second output therefore differs from the first. *)
Theorem second_pass_appends_pad env speech out top_db hop_length win_length :
  postprocess env speech top_db hop_length win_length = inr out ->
  librosa_trim env out top_db win_length hop_length <> [] ->
  incl (librosa_trim env out top_db win_length hop_length) out ->
  postprocess env out top_db hop_length win_length =
    inr (librosa_trim env out top_db win_length hop_length
           ++ pad (cosyvoice_sample_rate env)) /\
  (librosa_trim env out top_db win_length hop_length = out ->
   pad (cosyvoice_sample_rate env) <> [] ->
   postprocess env out top_db hop_length win_length <> inr out).
Proof.
  intros Hfirst Hne Hincl.
  assert (Hsecond : postprocess env out top_db hop_length win_length =
                    inr (librosa_trim env out top_db win_length hop_length
                           ++ pad (cosyvoice_sample_rate env))).
  { unfold postprocess.
    destruct (abs_max (librosa_trim env out top_db win_length hop_length))
      as [p|] eqn:Hp; [|apply abs_max_none in Hp; contradiction].
    destruct (abs_max_attained _ p Hp) as (x & Hx & Hxp).
    assert (Hle : (p <= max_val)%Q).
    { rewrite <- Hxp.
      apply (postprocess_bounded env speech top_db hop_length win_length out
               Hfirst x). apply Hincl, Hx. }
    apply Qle_bool_iff in Hle. rewrite Hle. reflexivity. }
  split; [exact Hsecond|].
  intros Hsame Hpad. rewrite Hsecond, Hsame. intros E.
  injection E as E. apply (f_equal (@List.length Q)) in E.
  rewrite length_app in E.
  destruct (pad (cosyvoice_sample_rate env)); [contradiction|].
  simpl in E. lia.
Qed.

(** ** The sample environment *)

Lemma in_firstn {A} n (l : list A) x : In x (firstn n l) -> In x l.
Proof.
  intros H. rewrite <- (firstn_skipn n l). apply in_or_app. left. exact H.
Qed.

Lemma in_skipn {A} n (l : list A) x : In x (skipn n l) -> In x l.
Proof.
  intros H. rewrite <- (firstn_skipn n l). apply in_or_app. right. exact H.
Qed.

(** The trim of the sample environment returns a slice of its input. *)
Lemma spec_trim_incl speech top_db frame_length hop_length :
  incl (SpecTrim.trim speech top_db frame_length hop_length) speech.
Proof.
  unfold SpecTrim.trim. intros x Hx.
  destruct (SpecTrim.first_index _ _ _) as [a|]; [|contradiction].
  destruct (SpecTrim.last_index _ _ _) as [b|]; [|contradiction].
  apply in_skipn in Hx. apply in_firstn in Hx. exact Hx.
Qed.

(** C5, counterexample: 440 samples of amplitude 0.5 at 22050 Hz come out
    followed by 4410 zeros; post-processing that output again gives a
    longer signal, not the same one. *)
Lemma postprocess_not_idempotent :
  postprocess demo_env quiet_speech 60 220 440 = inr quiet_out /\
  postprocess demo_env quiet_out 60 220 440 <> inr quiet_out.
Proof.
  split; [vm_compute; reflexivity|].
  intros E.
  apply (f_equal (fun res : Exn + list Q =>
                    match res with
                    | inl _ => 0%nat
                    | inr o => List.length o
                    end)) in E.
  vm_compute in E. discriminate.
Qed.

Lemma second_pass_appends_pad_witness :
  postprocess demo_env quiet_speech 60 220 440 = inr quiet_out /\
  postprocess demo_env quiet_out 60 220 440 =
    inr (librosa_trim demo_env quiet_out 60 440 220 ++ pad 22050).
Proof.
  assert (Hfirst : postprocess demo_env quiet_speech 60 220 440 = inr quiet_out)
    by (vm_compute; reflexivity).
  split; [exact Hfirst|].
  apply (second_pass_appends_pad demo_env quiet_speech quiet_out 60 220 440).
  - exact Hfirst.
  - vm_compute. discriminate.
  - apply spec_trim_incl.
Defined.


(** C2, counterexample: a pretrained-voice request with a speaker passes
    the checks and the engine's two chunks come back tagged with 22050, but
    the last of them is the pair of a rate and samples: it carries no final
    flag. *)
Lemma last_chunk_has_no_final_flag :
  passes_checks demo_env valid_request /\
  yields (trace (generate_audio demo_env valid_request)) =
    [(22050%Z, [0.25; 0.5]%Q); (22050%Z, [-0.5]%Q)] /\
  ~ carries_final (22050%Z, [-0.5]%Q).
Proof.
  split; [split; vm_compute; reflexivity|].
  split; [vm_compute; reflexivity|].
  unfold carries_final. simpl. intros [H | [H | []]]; discriminate.
Qed.

Lemma relays_engine_chunks_witness :
  passes_checks demo_env valid_request /\
  yields (trace (generate_audio demo_env valid_request)) =
    map (tag demo_env)
      (emitted (cosyvoice_inference demo_env 42
                  (inference_sft "hello" "speaker-1" false 1))).
Proof.
  assert (Hpass : passes_checks demo_env valid_request)
    by (split; vm_compute; reflexivity).
  split; [exact Hpass|].
  apply (relays_engine_chunks demo_env valid_request
           (inference_sft "hello" "speaker-1" false 1)).
  - exact Hpass.
  - vm_compute. left. reflexivity.
Defined.

Lemma dispatch_calls_assigned_operation_witness :
  distinct_labels demo_env /\
  reference_ready demo_env (Some "upload.wav"%string) FastReplication loud_out /\
  inferences (trace (generate_audio demo_env replication_request)) =
    [inference_zero_shot "hello" "hi" loud_out false 1].
Proof.
  assert (Hd : distinct_labels demo_env).
  { unfold distinct_labels. simpl.
    repeat constructor; simpl; intuition discriminate. }
  assert (Hready : reference_ready demo_env (Some "upload.wav"%string)
                     FastReplication loud_out).
  { exists "upload.wav"%string, loud_speech.
    split; [reflexivity | split; [reflexivity | vm_compute; reflexivity]]. }
  split; [exact Hd | split; [exact Hready|]].
  apply (dispatch_calls_assigned_operation demo_env replication_request
           FastReplication loud_out).
  - exact Hd.
  - reflexivity.
  - vm_compute. reflexivity.
  - exact Hready.
Defined.

Lemma engine_error_ends_stream_witness :
  passes_checks failing_env valid_request /\
  yields (trace (generate_audio failing_env valid_request)) =
    [(22050%Z, [0.25; 0.5]%Q); (22050%Z, [-0.5]%Q)] /\
  outcome (generate_audio failing_env valid_request) =
    inl (EngineError "out of memory").
Proof.
  assert (Hpass : passes_checks failing_env valid_request)
    by (split; vm_compute; reflexivity).
  split; [exact Hpass|].
  destruct (engine_error_ends_stream failing_env valid_request
              (inference_sft "hello" "speaker-1" false 1)
              (EngineError "out of memory") Hpass)
    as (Hy & Ho & _).
  - vm_compute. left. reflexivity.
  - reflexivity.
  - split; [exact Hy | exact Ho].
Defined.

(** * Further properties of the module *)

Ltac enter_mode env Hd Hmode :=
  unfold checks; cbv zeta; rewrite Hmode; unfold in_list; simpl existsb;
  decide_labels env Hd; simpl orb; cbn [when].

Ltac refute :=
  let H := fresh in intros H; cbn in H; discriminate H.

Ltac split_if :=
  repeat match goal with
  | |- context [if ?b then _ else _] => destruct b
  end.

(** ** Dicts *)

Lemma dict_get_set key k value d :
  dict_get key (dict_set k value d) =
  if String.eqb key k then Some value else dict_get key d.
Proof.
  induction d as [|[k0 v0] rest IH]; simpl.
  - reflexivity.
  - destruct (String.eqb k k0) eqn:Hk; simpl.
    + apply String.eqb_eq in Hk. subst k0.
      destruct (String.eqb key k); reflexivity.
    + rewrite IH. destruct (String.eqb key k0) eqn:H0.
      * apply String.eqb_eq in H0. subst k0.
        rewrite String.eqb_sym in Hk. rewrite Hk. reflexivity.
      * reflexivity.
Qed.

(** The lookup in the instruction table, entry by entry: the last entry
    written under a label is the one found. *)
Lemma instruct_dict_lookup env mode :
  dict_get mode (instruct_dict (initialize_global_texts env)) =
  if String.eqb mode (label env InstructControl)
  then Some (i18n_t env (instruct_key InstructControl))
  else if String.eqb mode (label env CrossLingual)
  then Some (i18n_t env (instruct_key CrossLingual))
  else if String.eqb mode (label env FastReplication)
  then Some (i18n_t env (instruct_key FastReplication))
  else if String.eqb mode (label env PretrainedVoice)
  then Some (i18n_t env (instruct_key PretrainedVoice))
  else None.
Proof.
  unfold initialize_global_texts, dict_literal. cbv zeta.
  cbn [instruct_dict fold_left fst snd].
  rewrite !dict_get_set. reflexivity.
Qed.

Lemma demo_labels_distinct : distinct_labels demo_env.
Proof.
  unfold distinct_labels. simpl.
  repeat constructor; simpl; intuition discriminate.
Qed.

(** ** change_instruction and the label tables *)

(** X1: after [initialize_global_texts], [change_instruction] finds an
    instruction for every choice of the mode radio, whatever the catalogue:
    no [KeyError] on a listed mode. *)
Theorem change_instruction_finds_listed_modes env mode :
  In mode (inference_mode_list (initialize_global_texts env)) ->
  exists instruction,
    change_instruction (initialize_global_texts env) mode = inr instruction.
Proof.
  intros Hin. unfold change_instruction. rewrite instruct_dict_lookup.
  simpl in Hin. unfold label, mode_key.
  destruct Hin as [<- | [<- | [<- | [<- | []]]]];
    rewrite ?String.eqb_refl; split_if; eexists; reflexivity.
Qed.

Lemma change_instruction_finds_listed_modes_witness :
  In "inference_mode_list.crosslingual"%string
     (inference_mode_list (initialize_global_texts demo_env)) /\
  exists instruction,
    change_instruction (initialize_global_texts demo_env)
      "inference_mode_list.crosslingual" = inr instruction.
Proof.
  assert (Hin : In "inference_mode_list.crosslingual"%string
                   (inference_mode_list (initialize_global_texts demo_env)))
    by (simpl; auto).
  split; [exact Hin|].
  apply (change_instruction_finds_listed_modes demo_env _ Hin).
Defined.

(** X2: when the catalogue gives the four modes different labels,
    [change_instruction] returns, for the label of a mode, the catalogue
    text of that mode's instruction. *)
Theorem change_instruction_of_label env m :
  distinct_labels env ->
  change_instruction (initialize_global_texts env) (label env m) =
  inr (i18n_t env (instruct_key m)).
Proof.
  intros Hd. unfold change_instruction. rewrite instruct_dict_lookup.
  destruct m;
    repeat match goal with
    | |- context [String.eqb (label env ?a) (label env ?a)] =>
        rewrite (String.eqb_refl (label env a))
    | |- context [String.eqb (label env ?a) (label env ?b)] =>
        rewrite (label_eqb_diff env a b Hd) by discriminate
    end; reflexivity.
Qed.

Lemma change_instruction_of_label_witness :
  distinct_labels demo_env /\
  change_instruction (initialize_global_texts demo_env)
    "inference_mode_list.3s_fast_replication" =
  inr "instruct_dict.3s_fast_replication"%string.
Proof.
  split; [exact demo_labels_distinct|].
  apply (change_instruction_of_label demo_env FastReplication).
  exact demo_labels_distinct.
Defined.

(** X3: a string that is the label of none of the four modes is not a key
    of the table: [change_instruction] raises [KeyError] on it. *)
Theorem change_instruction_unknown_mode env mode :
  (forall m, mode <> label env m) ->
  change_instruction (initialize_global_texts env) mode = inl (KeyError mode).
Proof.
  intros Hnot. unfold change_instruction. rewrite instruct_dict_lookup.
  rewrite (proj2 (String.eqb_neq _ _) (Hnot InstructControl)).
  rewrite (proj2 (String.eqb_neq _ _) (Hnot CrossLingual)).
  rewrite (proj2 (String.eqb_neq _ _) (Hnot FastReplication)).
  rewrite (proj2 (String.eqb_neq _ _) (Hnot PretrainedVoice)).
  reflexivity.
Qed.

Lemma change_instruction_unknown_mode_witness :
  (forall m, "sing"%string <> label demo_env m) /\
  change_instruction (initialize_global_texts demo_env) "sing" =
  inl (KeyError "sing").
Proof.
  assert (H : forall m, "sing"%string <> label demo_env m)
    by (intros m; destruct m; discriminate).
  split; [exact H|].
  apply (change_instruction_unknown_mode demo_env "sing" H).
Defined.

(** ** The form built by main *)

(** The form [main] builds after the start-up sequence. *)
Lemma main_form_value env list_available_spks :
  exists instruction,
    change_instruction (initialize_global_texts env)
      (label env PretrainedVoice) = inr instruction /\
    main_form env (initialize_global_texts env)
      (startup_sft_spk list_available_spks) =
    inr {| tts_text_value := i18n_t env "placeholders.enter_synthesis_text";
           mode_value := label env PretrainedVoice;
           instruction_value := instruction;
           sft_choices := startup_sft_spk list_available_spks;
           sft_value := hd ""%string list_available_spks;
           stream_value := false;
           speed_value := 1;
           seed_value := 0;
           prompt_text_value := "";
           instruct_text_value := "";
           visibility :=
             mode_change_visibility env (label env PretrainedVoice) |}.
Proof.
  assert (Hins : exists instruction,
            change_instruction (initialize_global_texts env)
              (label env PretrainedVoice) = inr instruction).
  { unfold change_instruction. rewrite instruct_dict_lookup.
    rewrite (String.eqb_refl (label env PretrainedVoice)).
    split_if; eexists; reflexivity. }
  destruct Hins as (instruction & Hins). exists instruction.
  split; [exact Hins|].
  unfold main_form. cbv zeta.
  change (item (inference_mode_list (initialize_global_texts env)) 0)
    with (@inr PyError string (label env PretrainedVoice)).
  cbn [and_then]. rewrite Hins. cbn [and_then].
  destruct list_available_spks as [|spk rest]; reflexivity.
Qed.

(** X4: with the globals set by [initialize_global_texts] and the speaker
    list prepared at start-up, building the form raises neither
    [IndexError] nor [KeyError], even when the model lists no speaker.  The
    form starts in the pretrained-voice mode with that mode's instruction,
    offers a non-empty speaker list whose first entry is selected, does not
    stream, has seed 0 and speed 1, shows the speaker dropdown, and shows
    the four mode-dependent widgets exactly as the change handler would for
    the initial mode. *)
Theorem main_form_is_built env list_available_spks :
  exists f,
    main_form env (initialize_global_texts env)
      (startup_sft_spk list_available_spks) = inr f /\
    mode_value f = label env PretrainedVoice /\
    change_instruction (initialize_global_texts env) (mode_value f) =
      inr (instruction_value f) /\
    hd_error (sft_choices f) = Some (sft_value f) /\
    sft_value f = hd ""%string list_available_spks /\
    stream_value f = false /\ seed_value f = 0%Z /\ (speed_value f == 1)%Q /\
    sft_dropdown_visible (visibility f) = true /\
    visibility f = mode_change_visibility env (mode_value f).
Proof.
  destruct (main_form_value env list_available_spks)
    as (instruction & Hins & E).
  eexists. split; [exact E|]. cbn [mode_value instruction_value sft_choices
    sft_value stream_value seed_value speed_value visibility].
  split; [reflexivity | split; [exact Hins | split]].
  { destruct list_available_spks; reflexivity. }
  repeat split; try reflexivity.
  unfold mode_change_visibility, in_list. cbv zeta. simpl.
  unfold label. simpl. rewrite String.eqb_refl. reflexivity.
Qed.

(** X5: the change handler shows, under a catalogue with four different
    labels, the speaker dropdown for the pretrained-voice and instruct modes
    only, and the two reference recorders and the reference text for the
    fast-replication and cross-lingual modes only. *)
Theorem mode_change_visibility_table env m :
  distinct_labels env ->
  mode_change_visibility env (label env m) =
  match m with
  | PretrainedVoice | InstructControl =>
      {| sft_dropdown_visible := true;
         prompt_wav_upload_visible := false;
         prompt_wav_record_visible := false;
         prompt_text_visible := false |}
  | FastReplication | CrossLingual =>
      {| sft_dropdown_visible := false;
         prompt_wav_upload_visible := true;
         prompt_wav_record_visible := true;
         prompt_text_visible := true |}
  end.
Proof.
  intros Hd. unfold mode_change_visibility, in_list. cbv zeta. simpl existsb.
  destruct m; decide_labels env Hd; reflexivity.
Qed.

Lemma mode_change_visibility_table_witness :
  distinct_labels demo_env /\
  mode_change_visibility demo_env "inference_mode_list.crosslingual" =
  {| sft_dropdown_visible := false;
     prompt_wav_upload_visible := true;
     prompt_wav_record_visible := true;
     prompt_text_visible := true |}.
Proof.
  split; [exact demo_labels_distinct|].
  apply (mode_change_visibility_table demo_env CrossLingual).
  exact demo_labels_distinct.
Defined.

(** ** The checks, mode by mode *)

(** In the two speaker modes the checks never raise, and yield one
    placeholder per failed condition. *)
Lemma speaker_mode_checks env r m pw :
  distinct_labels env ->
  m = PretrainedVoice \/ m = InstructControl ->
  mode_checkbox_group r = label env m ->
  outcome (checks env r pw) = inr tt /\
  yields (trace (checks env r pw)) =
    match m with
    | InstructControl =>
        (if cosyvoice_instruct env then [] else [placeholder env]) ++
        (if String.eqb (instruct_text r) "" then [placeholder env] else [])
    | _ => if String.eqb (sft_dropdown r) "" then [placeholder env] else []
    end.
Proof.
  intros Hd Hm Hmode.
  destruct Hm as [-> | ->]; enter_mode env Hd Hmode.
  - destruct (String.eqb (sft_dropdown r) ""); cbn [when];
      split_when; split; reflexivity.
  - destruct (cosyvoice_instruct env); simpl Bool.eqb; cbn [when];
      destruct (String.eqb (instruct_text r) ""); cbn [when];
      split_when; split; reflexivity.
Qed.

Lemma seeded_inference_seedings env r c :
  seedings (trace (seeded_inference env r c)) = [seed r].
Proof.
  rewrite seeded_inference_trace. simpl.
  rewrite seedings_map_Yield. reflexivity.
Qed.

(** X6: when the model lists a first speaker with a non-empty name and the
    catalogue tells the modes apart, submitting the form as it was built
    passes the checks and calls [inference_sft] on the placeholder text
    with that speaker, not streaming, at speed 1, under seed 0. *)
Theorem untouched_form_with_speaker env spk others f :
  distinct_labels env ->
  spk <> ""%string ->
  main_form env (initialize_global_texts env) (startup_sft_spk (spk :: others))
    = inr f ->
  passes_checks env (form_request f) /\
  inferences (trace (generate_audio env (form_request f))) =
    [inference_sft (i18n_t env "placeholders.enter_synthesis_text") spk
       false 1] /\
  seedings (trace (generate_audio env (form_request f))) = [0%Z].
Proof.
  intros Hd Hspk Hform.
  destruct (main_form_value env (spk :: others)) as (instruction & _ & E).
  rewrite E in Hform. injection Hform as <-.
  set (r := form_request _).
  assert (Hmode : mode_checkbox_group r = label env PretrainedVoice)
    by reflexivity.
  destruct (speaker_mode_checks env r PretrainedVoice (prompt_wav_of r)
              Hd (or_introl eq_refl) Hmode) as [Hok Hy].
  change (sft_dropdown r) with spk in Hy.
  rewrite (proj2 (String.eqb_neq _ _) Hspk) in Hy.
  split; [split; assumption|].
  destruct (generate_audio_after_checks env r Hok) as [Ht _].
  destruct (inference_operation env r (prompt_wav_of r) PretrainedVoice []
              Hd Hmode I) as (pre & Hpre & _ & Htr & _).
  rewrite Ht, Htr, !inferences_app, !seedings_app.
  rewrite seeded_inference_inferences, seeded_inference_seedings.
  rewrite (plain_inferences _ (checks_plain env r (prompt_wav_of r))).
  rewrite (plain_seedings _ (checks_plain env r (prompt_wav_of r))).
  rewrite (plain_inferences _ Hpre), (plain_seedings _ Hpre).
  split; reflexivity.
Qed.

Lemma untouched_form_with_speaker_witness :
  main_form demo_env (initialize_global_texts demo_env)
    (startup_sft_spk ["speaker-1"%string]) =
    inr (demo_form ["speaker-1"%string]) /\
  passes_checks demo_env (form_request (demo_form ["speaker-1"%string])) /\
  inferences
    (trace (generate_audio demo_env
              (form_request (demo_form ["speaker-1"%string])))) =
    [inference_sft "placeholders.enter_synthesis_text" "speaker-1" false 1] /\
  seedings
    (trace (generate_audio demo_env
              (form_request (demo_form ["speaker-1"%string])))) = [0%Z].
Proof.
  assert (E : main_form demo_env (initialize_global_texts demo_env)
                (startup_sft_spk ["speaker-1"%string]) =
              inr (demo_form ["speaker-1"%string]))
    by (vm_compute; reflexivity).
  split; [exact E|].
  apply (untouched_form_with_speaker demo_env "speaker-1" []
           (demo_form ["speaker-1"%string]) demo_labels_distinct).
  - discriminate.
  - exact E.
Defined.

(** X7: when the model lists no speaker, the dropdown offers the empty
    name alone; submitting the form as it was built fails the speaker check
    and the caller receives the placeholder followed by whatever the engine
    produces for the empty speaker. *)
Theorem untouched_form_without_speakers env f :
  distinct_labels env ->
  main_form env (initialize_global_texts env) (startup_sft_spk []) = inr f ->
  sft_choices f = [""%string] /\
  ~ passes_checks env (form_request f) /\
  yields (trace (generate_audio env (form_request f))) =
    placeholder env
    :: map (tag env)
         (emitted (cosyvoice_inference env 0
                     (inference_sft
                        (i18n_t env "placeholders.enter_synthesis_text")
                        "" false 1))).
Proof.
  intros Hd Hform.
  destruct (main_form_value env []) as (instruction & _ & E).
  rewrite E in Hform. injection Hform as <-.
  set (r := form_request _).
  assert (Hmode : mode_checkbox_group r = label env PretrainedVoice)
    by reflexivity.
  split; [reflexivity|].
  destruct (speaker_mode_checks env r PretrainedVoice (prompt_wav_of r)
              Hd (or_introl eq_refl) Hmode) as [Hok Hy].
  split.
  - intros [_ Hquiet]. rewrite Hy in Hquiet. discriminate Hquiet.
  - destruct (empty_speaker_always_reaches_engine env r Hd Hmode eq_refl)
      as [Hyields _].
    exact Hyields.
Qed.

Lemma untouched_form_without_speakers_witness :
  main_form demo_env (initialize_global_texts demo_env) (startup_sft_spk []) =
    inr (demo_form []) /\
  sft_choices (demo_form []) = [""%string] /\
  ~ passes_checks demo_env (form_request (demo_form [])).
Proof.
  assert (E : main_form demo_env (initialize_global_texts demo_env)
                (startup_sft_spk []) = inr (demo_form []))
    by (vm_compute; reflexivity).
  split; [exact E|].
  destruct (untouched_form_without_speakers demo_env (demo_form [])
              demo_labels_distinct E) as (Hchoices & Hfails & _).
  split; [exact Hchoices | exact Hfails].
Defined.

(** X8: in the pretrained-voice mode a request passes the checks exactly
    when a speaker is selected; the other fields only cause a notice. *)
Theorem pretrained_passes_iff env r :
  distinct_labels env ->
  mode_checkbox_group r = label env PretrainedVoice ->
  (passes_checks env r <-> sft_dropdown r <> ""%string).
Proof.
  intros Hd Hmode. unfold passes_checks. enter_mode env Hd Hmode.
  destruct (String.eqb (sft_dropdown r) "") eqn:E; cbn [when].
  - apply String.eqb_eq in E. split; [|intros H; contradiction].
    intros [_ Hy]. exfalso. revert Hy. split_when; refute.
  - apply String.eqb_neq in E. split; [intros _; exact E|].
    intros _. split_when; split; reflexivity.
Qed.

Lemma pretrained_passes_iff_witness :
  distinct_labels demo_env /\
  (passes_checks demo_env valid_request <->
   sft_dropdown valid_request <> ""%string).
Proof.
  split; [exact demo_labels_distinct|].
  apply (pretrained_passes_iff demo_env valid_request demo_labels_distinct).
  reflexivity.
Defined.

(** X9: in the instruct mode a request passes the checks exactly when the
    model answers instruct requests and an instruction text is given. *)
Theorem instruct_passes_iff env r :
  distinct_labels env ->
  mode_checkbox_group r = label env InstructControl ->
  (passes_checks env r <->
   cosyvoice_instruct env = true /\ instruct_text r <> ""%string).
Proof.
  intros Hd Hmode. unfold passes_checks. enter_mode env Hd Hmode.
  destruct (cosyvoice_instruct env); simpl Bool.eqb; cbn [when];
    (destruct (String.eqb (instruct_text r) "") eqn:E; cbn [when];
     [apply String.eqb_eq in E | apply String.eqb_neq in E]).
  - split; [|intros [_ H]; contradiction].
    intros [_ Hy]. exfalso. revert Hy. split_when; refute.
  - split; [intros _; split; [reflexivity | exact E]|].
    intros _. split_when; split; reflexivity.
  - split; [|intros [H _]; discriminate].
    intros [_ Hy]. exfalso. revert Hy. split_when; refute.
  - split; [|intros [H _]; discriminate].
    intros [_ Hy]. exfalso. revert Hy. split_when; refute.
Qed.

Lemma instruct_passes_iff_witness :
  distinct_labels demo_env /\
  (passes_checks demo_env instruct_request <->
   cosyvoice_instruct demo_env = true /\
   instruct_text instruct_request <> ""%string).
Proof.
  split; [exact demo_labels_distinct|].
  apply (instruct_passes_iff demo_env instruct_request demo_labels_distinct).
  reflexivity.
Defined.

(** X10: in the fast-replication mode a request passes the checks exactly
    when its reference recording can be inspected, has a sample rate of at
    least 16000 Hz (16000 itself is accepted) and a reference text is
    given. *)
Theorem fast_replication_passes_iff env r :
  distinct_labels env ->
  mode_checkbox_group r = label env FastReplication ->
  (passes_checks env r <->
   usable_reference env r /\ prompt_text r <> ""%string).
Proof.
  intros Hd Hmode. unfold passes_checks, usable_reference.
  enter_mode env Hd Hmode.
  destruct (prompt_wav_of r) as [path|]; simpl is_none; cbn [when].
  2:{ split; [intros [Ho _]; revert Ho; split_when; refute|].
      intros [(p & q & H & _) _]; discriminate. }
  unfold info_sample_rate.
  destruct (torchaudio_info env path) as [rate|] eqn:Hinfo.
  2:{ split; [intros [Ho _]; revert Ho; split_when; refute|].
      intros [(p & q & H & H' & _) _]. congruence. }
  destruct (rate <? prompt_sr)%Z eqn:Hrate; cbn; rewrite Hrate; cbn [when];
    unfold prompt_sr in Hrate.
  { apply Z.ltb_lt in Hrate. split.
    - intros [_ Hy]. exfalso. revert Hy. split_when; refute.
    - intros [(p & q & H & H' & Hq) _]. exfalso.
      injection H as <-. rewrite Hinfo in H'. injection H' as <-. lia. }
  apply Z.ltb_ge in Hrate.
  destruct (String.eqb (prompt_text r) "") eqn:E; cbn [when];
    [apply String.eqb_eq in E | apply String.eqb_neq in E].
  - split; [|intros [_ H]; contradiction].
    intros [_ Hy]. exfalso. revert Hy. split_when; refute.
  - split.
    + intros _. split; [|exact E]. exists path, rate. auto.
    + intros _. split_when; split; reflexivity.
Qed.

Lemma fast_replication_passes_iff_witness :
  distinct_labels demo_env /\
  (passes_checks demo_env replication_request <->
   usable_reference demo_env replication_request /\
   prompt_text replication_request <> ""%string).
Proof.
  split; [exact demo_labels_distinct|].
  apply (fast_replication_passes_iff demo_env replication_request
           demo_labels_distinct).
  reflexivity.
Defined.

(** X11: in the cross-lingual mode a request passes the checks exactly
    when the model does not answer instruct requests and the reference
    recording can be inspected and has a sample rate of at least 16000 Hz;
    no reference text is needed. *)
Theorem cross_lingual_passes_iff env r :
  distinct_labels env ->
  mode_checkbox_group r = label env CrossLingual ->
  (passes_checks env r <->
   cosyvoice_instruct env = false /\ usable_reference env r).
Proof.
  intros Hd Hmode. unfold passes_checks, usable_reference.
  enter_mode env Hd Hmode.
  destruct (cosyvoice_instruct env); simpl Bool.eqb; cbn [when].
  { split; [|intros [H _]; discriminate].
    intros [_ Hy]. exfalso. revert Hy.
    destruct (prompt_wav_of r) as [path|]; simpl is_none; cbn [when];
      unfold info_sample_rate; [destruct (torchaudio_info env path)|];
      split_when; refute. }
  destruct (prompt_wav_of r) as [path|]; simpl is_none; cbn [when].
  2:{ split; [intros [Ho _]; revert Ho; split_when; refute|].
      intros [_ (p & q & H & _)]; discriminate. }
  unfold info_sample_rate.
  destruct (torchaudio_info env path) as [rate|] eqn:Hinfo.
  2:{ split; [intros [Ho _]; revert Ho; split_when; refute|].
      intros [_ (p & q & H & H' & _)]. congruence. }
  destruct (rate <? prompt_sr)%Z eqn:Hrate; cbn; rewrite Hrate; cbn [when];
    unfold prompt_sr in Hrate.
  { apply Z.ltb_lt in Hrate. split.
    - intros [_ Hy]. exfalso. revert Hy. split_when; refute.
    - intros [_ (p & q & H & H' & Hq)]. exfalso.
      injection H as <-. rewrite Hinfo in H'. injection H' as <-. lia. }
  apply Z.ltb_ge in Hrate. split.
  - intros _. split; [reflexivity|]. exists path, rate. auto.
  - intros _. split_when; split; reflexivity.
Qed.

Lemma cross_lingual_passes_iff_witness :
  distinct_labels demo_env /\
  (passes_checks demo_env cross_lingual_request <->
   cosyvoice_instruct demo_env = false /\
   usable_reference demo_env cross_lingual_request).
Proof.
  split; [exact demo_labels_distinct|].
  apply (cross_lingual_passes_iff demo_env cross_lingual_request
           demo_labels_distinct).
  reflexivity.
Defined.

(** ** Invariants of the checks and of the stream *)

(** X12: the checks can raise in one way only: in the two reference modes,
    when [torchaudio.info] is asked about [None] or about a file it cannot
    inspect.  In every other case they run to their end. *)
Theorem checks_raise_only_on_info env r pw e :
  outcome (checks env r pw) = inl e ->
  in_list (mode_checkbox_group r)
    [label env FastReplication; label env CrossLingual] = true /\
  ((pw = None /\ e = InfoError None) \/
   (exists path, pw = Some path /\ torchaudio_info env path = None /\
                 e = InfoError (Some path))).
Proof.
  unfold checks. cbv zeta.
  change (i18n_t env "inference_mode_list.3s_fast_replication")
    with (label env FastReplication).
  change (i18n_t env "inference_mode_list.crosslingual")
    with (label env CrossLingual).
  rewrite outcome_bind_ok with (a := tt) by (split_when; reflexivity).
  rewrite outcome_bind_ok with (a := tt) by (split_when; reflexivity).
  destruct (in_list (mode_checkbox_group r)
              [label env FastReplication; label env CrossLingual]);
    cbn [when].
  2:{ rewrite outcome_bind_ok with (a := tt) by reflexivity.
      rewrite outcome_bind_ok with (a := tt) by (split_when; reflexivity).
      split_when; intros H; discriminate H. }
  intros H. split; [reflexivity|]. revert H.
  destruct pw as [path|]; simpl is_none; cbn [when]; unfold info_sample_rate.
  - destruct (torchaudio_info env path) as [rate|] eqn:Hinfo.
    + destruct (rate <? prompt_sr)%Z eqn:Hrate;
        (rewrite outcome_bind_ok with (a := tt)
           by (cbn; rewrite Hrate; reflexivity));
        (rewrite outcome_bind_ok with (a := tt) by (split_when; reflexivity));
        split_when; intros H; discriminate H.
    + intros H. right. exists path. cbn in H. injection H as <-. auto.
  - intros H. left. cbn in H. injection H as <-. auto.
Qed.

Lemma checks_raise_only_on_info_witness :
  outcome (checks demo_env no_reference_request None) = inl (InfoError None) /\
  in_list (mode_checkbox_group no_reference_request)
    [label demo_env FastReplication; label demo_env CrossLingual] = true.
Proof.
  assert (H : outcome (checks demo_env no_reference_request None) =
              inl (InfoError None)) by (vm_compute; reflexivity).
  split; [exact H|].
  apply (checks_raise_only_on_info demo_env no_reference_request None
           (InfoError None) H).
Defined.

Lemma paired_app env a b : paired env a -> paired env b -> paired env (a ++ b).
Proof.
  induction 1; simpl; auto; constructor; auto.
Qed.

Lemma paired_bind {A B} env (m : Gen A) (k : A -> Gen B) :
  paired env (trace m) -> (forall a, paired env (trace (k a))) ->
  paired env (trace (bind m k)).
Proof.
  intros Hm Hk. unfold trace, bind in *.
  destruct (snd m); simpl; auto. apply paired_app; auto.
Qed.

Lemma paired_when env b m :
  paired env (trace m) -> paired env (trace (when b m)).
Proof.
  destruct b; simpl; [auto | constructor].
Qed.

Lemma paired_warn env key :
  paired env (trace (bind (emit (GrWarning key)) (fun _ => yield_default env))).
Proof.
  repeat constructor.
Qed.

Lemma paired_emit_info env key : paired env (trace (emit (GrInfo key))).
Proof.
  repeat constructor.
Qed.

Lemma paired_info_sample_rate env pw :
  paired env (trace (info_sample_rate env pw)).
Proof.
  unfold info_sample_rate.
  destruct pw as [path|]; [destruct (torchaudio_info env path)|]; constructor.
Qed.

Lemma checks_paired env r pw : paired env (trace (checks env r pw)).
Proof.
  unfold checks.
  repeat first
    [ apply paired_warn
    | apply paired_emit_info
    | apply paired_info_sample_rate
    | apply paired_when
    | apply paired_bind; [|intros] ].
Qed.

Lemma paired_yields env tr :
  paired env tr -> yields tr = repeat (placeholder env) (warnings tr).
Proof.
  induction 1; simpl; congruence.
Qed.

Lemma paired_warning_then_yield env tr :
  paired env tr ->
  forall pre key post,
    tr = pre ++ GrWarning key :: post ->
    exists post', post = Yield (placeholder env) :: post'.
Proof.
  induction 1 as [| k rest Hrest IH | k rest Hrest IH];
    intros pre key post E.
  - destruct pre; discriminate.
  - destruct pre as [|x pre]; [discriminate|].
    injection E as _ E. eapply IH. exact E.
  - destruct pre as [|x [|y pre]].
    + injection E as _ <-. eexists. reflexivity.
    + discriminate.
    + injection E as _ _ E. eapply IH. exact E.
Qed.

(** X13: in every run of the checks, each [gr.Warning] is followed at once
    by the yield of the silent placeholder [(cosyvoice.sample_rate,
    default_data)], and nothing else is yielded: the checks yield as many
    placeholders as they issue warnings, and a [gr.Info] never comes with a
    chunk. *)
Theorem warnings_come_with_placeholders env r pw :
  yields (trace (checks env r pw)) =
    repeat (placeholder env) (warnings (trace (checks env r pw))) /\
  (forall pre key post,
     trace (checks env r pw) = pre ++ GrWarning key :: post ->
     exists post', post = Yield (placeholder env) :: post').
Proof.
  split.
  - apply paired_yields, checks_paired.
  - apply paired_warning_then_yield, checks_paired.
Qed.

(** X14: every chunk a run of [generate_audio] yields, whatever the request
    and however the run ends, carries [cosyvoice.sample_rate]; it is either
    the silent placeholder or the flattened output of an item the engine
    call of this run emitted. *)
Theorem every_chunk_has_native_rate env r ch :
  In ch (yields (trace (generate_audio env r))) ->
  fst ch = cosyvoice_sample_rate env /\
  (ch = placeholder env \/
   exists c i,
     In c (inferences (trace (generate_audio env r))) /\
     In i (emitted (cosyvoice_inference env (seed r) c)) /\
     ch = tag env i).
Proof.
  assert (Hph : forall tr,
            paired env tr -> forall x, In x (yields tr) -> x = placeholder env).
  { intros tr Htr x Hx. rewrite (paired_yields env tr Htr) in Hx.
    apply repeat_spec in Hx. exact Hx. }
  pose proof (checks_paired env r (prompt_wav_of r)) as Hpaired.
  intros Hin.
  assert (Hcases : ch = placeholder env \/
                   exists c i,
                     In c (inferences (trace (generate_audio env r))) /\
                     In i (emitted (cosyvoice_inference env (seed r) c)) /\
                     ch = tag env i).
  { destruct (outcome (checks env r (prompt_wav_of r))) as [e|[]] eqn:Hc.
    - destruct (generate_audio_checks_raise env r e Hc) as [Ht _].
      rewrite Ht in Hin. left. exact (Hph _ Hpaired ch Hin).
    - destruct (generate_audio_run env r Hc)
        as [(e & _ & _ & Hy) | (pre & c & Hpre & Hy & Htr & _)].
      + rewrite Hy in Hin. left. exact (Hph _ Hpaired ch Hin).
      + rewrite Htr, yields_app, Hy, seeded_inference_yields in Hin.
        apply in_app_or in Hin. destruct Hin as [Hin | Hin].
        * left. exact (Hph _ Hpaired ch Hin).
        * right. apply in_map_iff in Hin. destruct Hin as (i & <- & Hi).
          exists c, i. split; [|split; [exact Hi | reflexivity]].
          rewrite Htr, inferences_app, seeded_inference_inferences.
          apply in_or_app. right. left. reflexivity. }
  split; [|exact Hcases].
  destruct Hcases as [-> | (c & i & _ & _ & ->)]; reflexivity.
Qed.

Lemma every_chunk_has_native_rate_witness :
  In (22050%Z, [0.25; 0.5]%Q)
     (yields (trace (generate_audio demo_env valid_request))) /\
  fst (22050%Z, [0.25; 0.5]%Q) = cosyvoice_sample_rate demo_env.
Proof.
  assert (Hin : In (22050%Z, [0.25; 0.5]%Q)
                   (yields (trace (generate_audio demo_env
                                     valid_request)))).
  { vm_compute. left. reflexivity. }
  split; [exact Hin|].
  apply (every_chunk_has_native_rate demo_env valid_request _ Hin).
Defined.

(** X15: a mode string that is the label of none of the four modes meets
    no check at all, and the last branch of the dispatch serves it as an
    instruct request: [inference_instruct] is called with the speaker and
    the instruction text of the request. *)
Theorem unlisted_mode_is_served_as_instruct env r :
  (forall m, mode_checkbox_group r <> label env m) ->
  trace (checks env r (prompt_wav_of r)) = [] /\
  outcome (checks env r (prompt_wav_of r)) = inr tt /\
  inferences (trace (generate_audio env r)) =
    [inference_instruct (tts_text r) (sft_dropdown r) (instruct_text r)
       (stream r) (speed r)].
Proof.
  intros Hnot.
  assert (Hneq : forall m,
            String.eqb (mode_checkbox_group r) (label env m) = false).
  { intros m. apply String.eqb_neq. apply Hnot. }
  assert (Hchecks : checks env r (prompt_wav_of r) = ([], inr tt)).
  { unfold checks, in_list. cbv zeta. simpl existsb.
    change (i18n_t env "inference_mode_list.pretrained_voice")
      with (label env PretrainedVoice).
    change (i18n_t env "inference_mode_list.3s_fast_replication")
      with (label env FastReplication).
    change (i18n_t env "inference_mode_list.crosslingual")
      with (label env CrossLingual).
    change (i18n_t env "inference_mode_list.natural_language_control")
      with (label env InstructControl).
    rewrite !Hneq. reflexivity. }
  rewrite Hchecks. split; [reflexivity | split; [reflexivity|]].
  destruct (generate_audio_after_checks env r) as [Ht _].
  { rewrite Hchecks. reflexivity. }
  rewrite Ht, Hchecks. simpl app.
  unfold inference. cbv zeta.
  change (i18n_t env "inference_mode_list.pretrained_voice")
    with (label env PretrainedVoice).
  change (i18n_t env "inference_mode_list.3s_fast_replication")
    with (label env FastReplication).
  change (i18n_t env "inference_mode_list.crosslingual")
    with (label env CrossLingual).
  rewrite !Hneq.
  rewrite trace_bind_ok with (a := tt) by reflexivity.
  rewrite inferences_app, seeded_inference_inferences. reflexivity.
Qed.

Lemma unlisted_mode_is_served_as_instruct_witness :
  (forall m, mode_checkbox_group unlisted_request <> label demo_env m) /\
  inferences (trace (generate_audio demo_env unlisted_request)) =
    [inference_instruct "hello" "speaker-1" "" false 1].
Proof.
  assert (H : forall m, mode_checkbox_group unlisted_request
                        <> label demo_env m)
    by (intros m; destruct m; discriminate).
  split; [exact H|].
  destruct (unlisted_mode_is_served_as_instruct demo_env unlisted_request H)
    as (_ & _ & Hcall).
  exact Hcall.
Defined.

(** X16: in the fast-replication and cross-lingual modes, where the
    speaker dropdown is hidden, the selected speaker has no influence: the
    whole run is the same for every speaker name. *)
Theorem reference_modes_ignore_speaker env r spk m :
  distinct_labels env ->
  m = FastReplication \/ m = CrossLingual ->
  mode_checkbox_group r = label env m ->
  generate_audio env (with_sft_dropdown r spk) = generate_audio env r.
Proof.
  intros Hd Hm Hmode.
  unfold generate_audio, checks, inference. cbv zeta.
  cbn [with_sft_dropdown tts_text mode_checkbox_group sft_dropdown prompt_text
       prompt_wav_upload prompt_wav_record instruct_text seed stream speed].
  rewrite Hmode. unfold in_list. simpl existsb.
  destruct Hm as [-> | ->]; decide_labels env Hd; simpl orb; cbn [when];
    reflexivity.
Qed.

Lemma reference_modes_ignore_speaker_witness :
  distinct_labels demo_env /\
  generate_audio demo_env (with_sft_dropdown replication_request "speaker-1") =
  generate_audio demo_env replication_request.
Proof.
  split; [exact demo_labels_distinct|].
  apply (reference_modes_ignore_speaker demo_env replication_request
           "speaker-1" FastReplication demo_labels_distinct).
  - left. reflexivity.
  - reflexivity.
Defined.

(** X17: in the pretrained-voice and instruct modes, where the reference
    widgets are hidden, the reference text and the two recordings have no
    influence on what the caller receives: the chunks, the engine call and
    the way the run ends are the same whatever these fields hold (they can
    only add a notice). *)
Theorem speaker_modes_ignore_reference env r text upload record m :
  distinct_labels env ->
  m = PretrainedVoice \/ m = InstructControl ->
  mode_checkbox_group r = label env m ->
  yields (trace (generate_audio env (with_reference r text upload record))) =
    yields (trace (generate_audio env r)) /\
  inferences (trace (generate_audio env (with_reference r text upload record))) =
    inferences (trace (generate_audio env r)) /\
  outcome (generate_audio env (with_reference r text upload record)) =
    outcome (generate_audio env r).
Proof.
  intros Hd Hm Hmode.
  set (r' := with_reference r text upload record).
  assert (Hmode' : mode_checkbox_group r' = label env m) by exact Hmode.
  destruct (speaker_mode_checks env r m (prompt_wav_of r) Hd Hm Hmode)
    as [Hok Hy].
  destruct (speaker_mode_checks env r' m (prompt_wav_of r') Hd Hm Hmode')
    as [Hok' Hy'].
  destruct (generate_audio_after_checks env r Hok) as [Ht Ho].
  destruct (generate_audio_after_checks env r' Hok') as [Ht' Ho'].
  assert (Hinf : inference env r' (prompt_wav_of r') =
                 inference env r (prompt_wav_of r)).
  { unfold inference. cbv zeta. rewrite Hmode', Hmode.
    destruct Hm as [-> | ->]; decide_labels env Hd; reflexivity. }
  rewrite Ht, Ht', Ho, Ho', Hinf, !yields_app, !inferences_app, Hy, Hy'.
  rewrite (plain_inferences _ (checks_plain env r (prompt_wav_of r))).
  rewrite (plain_inferences _ (checks_plain env r' (prompt_wav_of r'))).
  repeat split; reflexivity.
Qed.

Lemma speaker_modes_ignore_reference_witness :
  distinct_labels demo_env /\
  yields (trace (generate_audio demo_env
                   (with_reference valid_request "hi"
                      (Some "upload.wav"%string) None))) =
    yields (trace (generate_audio demo_env valid_request)).
Proof.
  split; [exact demo_labels_distinct|].
  apply (speaker_modes_ignore_reference demo_env valid_request "hi"
           (Some "upload.wav"%string) None PretrainedVoice
           demo_labels_distinct).
  - left. reflexivity.
  - reflexivity.
Defined.

(** ** postprocess, further *)

(** X18: [postprocess] raises exactly when the trim leaves no sample, the
    peak of an empty tensor being undefined; it raises nothing else. *)
Theorem postprocess_raises_iff_nothing_left
    env speech top_db hop_length win_length :
  (librosa_trim env speech top_db win_length hop_length = [] ->
   postprocess env speech top_db hop_length win_length = inl EmptyReduction) /\
  (forall e, postprocess env speech top_db hop_length win_length = inl e ->
             e = EmptyReduction /\
             librosa_trim env speech top_db win_length hop_length = []).
Proof.
  unfold postprocess. split.
  - intros ->. reflexivity.
  - intros e.
    destruct (abs_max (librosa_trim env speech top_db win_length hop_length))
      as [peak|] eqn:Hpeak; [discriminate|].
    intros H. injection H as <-. split; [reflexivity|].
    apply abs_max_none. exact Hpeak.
Qed.

Lemma postprocess_raises_iff_nothing_left_witness :
  librosa_trim demo_env [] 60 440 220 = [] /\
  postprocess demo_env [] 60 220 440 = inl EmptyReduction.
Proof.
  assert (H : librosa_trim demo_env [] 60 440 220 = []) by reflexivity.
  split; [exact H|].
  destruct (postprocess_raises_iff_nothing_left demo_env [] 60 220 440)
    as [Hraise _].
  exact (Hraise H).
Defined.

(** X19: every sample [postprocess] returns lies between -0.8 and 0.8,
    whatever the input and whatever the trim. *)
Theorem postprocess_within_ceiling
    env speech top_db hop_length win_length out :
  postprocess env speech top_db hop_length win_length = inr out ->
  forall x, In x out -> (- (0.8) <= x <= 0.8)%Q.
Proof.
  intros H x Hx. apply Qabs_Qle_condition.
  apply (postprocess_bounded env speech top_db hop_length win_length out H x Hx).
Qed.

Lemma postprocess_within_ceiling_witness :
  postprocess demo_env loud_speech 60 220 440 = inr loud_out /\
  In (1280 # 1600)%Q loud_out /\
  (- (0.8) <= 1280 # 1600 <= 0.8)%Q.
Proof.
  assert (H : postprocess demo_env loud_speech 60 220 440 = inr loud_out)
    by (vm_compute; reflexivity).
  assert (Hin : In (1280 # 1600)%Q loud_out).
  { unfold loud_out. apply in_or_app. left. simpl. left. reflexivity. }
  split; [exact H | split; [exact Hin|]].
  apply (postprocess_within_ceiling demo_env loud_speech 60 220 440 loud_out
           H _ Hin).
Defined.

Lemma scaled_not_louder x peak :
  (max_val < peak)%Q -> (Qabs (x / peak * max_val) <= Qabs x)%Q.
Proof.
  intros Hlt.
  assert (Hpos : (0 < peak)%Q)
    by (apply Qlt_trans with max_val; [exact max_val_pos | exact Hlt]).
  rewrite (Qabs_scaled x peak Hpos).
  assert (E : (Qabs x / peak * max_val == Qabs x * max_val / peak)%Q).
  { field. intros E. rewrite E in Hpos. discriminate. }
  rewrite E. apply Qle_shift_div_r; [exact Hpos|].
  rewrite (Qmult_comm (Qabs x) max_val), (Qmult_comm (Qabs x) peak).
  apply Qmult_le_compat_r; [apply Qlt_le_weak; exact Hlt | apply Qabs_nonneg].
Qed.

(** X20: what [postprocess] returns is the trimmed signal, sample by sample
    and never louder than it was, followed by [sample_rate / 5] zeros (a
    fifth of a second: 4410 samples at 22050 Hz): the output is longer than
    the trimmed signal by exactly that pad. *)
Theorem postprocess_shape env speech top_db hop_length win_length out :
  postprocess env speech top_db hop_length win_length = inr out ->
  exists body,
    out = body ++ repeat 0%Q (Z.to_nat (Z.quot (cosyvoice_sample_rate env) 5)) /\
    Forall2 (fun y x => (Qabs y <= Qabs x)%Q) body
      (librosa_trim env speech top_db win_length hop_length).
Proof.
  unfold postprocess.
  destruct (abs_max (librosa_trim env speech top_db win_length hop_length))
    as [peak|] eqn:Hpeak; [|discriminate].
  intros H. injection H as <-.
  assert (Hpad : pad (cosyvoice_sample_rate env) =
                 repeat 0%Q (Z.to_nat (Z.quot (cosyvoice_sample_rate env) 5))).
  { unfold pad. replace 10%Z with (5 * 2)%Z by reflexivity.
    rewrite Z.quot_mul_cancel_r by discriminate. reflexivity. }
  rewrite Hpad. eexists. split; [reflexivity|].
  destruct (Qle_bool peak max_val) eqn:Hle; simpl.
  - clear Hpeak.
    induction (librosa_trim env speech top_db win_length hop_length);
      constructor; [apply Qle_refl | assumption].
  - assert (Hlt : (max_val < peak)%Q).
    { apply Qnot_le_lt. intros Hc. apply Qle_bool_iff in Hc. congruence. }
    clear Hpeak.
    induction (librosa_trim env speech top_db win_length hop_length);
      simpl; constructor; [apply scaled_not_louder; exact Hlt | assumption].
Qed.

Lemma postprocess_shape_witness :
  postprocess demo_env quiet_speech 60 220 440 = inr quiet_out /\
  exists body,
    quiet_out = body ++ repeat 0%Q 4410 /\
    Forall2 (fun y x => (Qabs y <= Qabs x)%Q) body
      (librosa_trim demo_env quiet_speech 60 440 220).
Proof.
  assert (H : postprocess demo_env quiet_speech 60 220 440 = inr quiet_out)
    by (vm_compute; reflexivity).
  split; [exact H|].
  apply (postprocess_shape demo_env quiet_speech 60 220 440 quiet_out H).
Defined.

(** ** prompt_wav_recognition *)

Lemma string_ind2 (P : string -> Prop) :
  P EmptyString ->
  (forall c, P (String c EmptyString)) ->
  (forall c d s, P s -> P (String d s) -> P (String c (String d s))) ->
  forall s, P s.
Proof.
  intros H0 H1 H2.
  assert (H : forall s, P s /\ forall c, P (String c s)).
  { induction s as [|d s [IHa IHb]]; split; auto. }
  intros s. apply H.
Qed.

Lemma string_app_assoc (a b c : string) :
  ((a ++ b) ++ c = a ++ (b ++ c))%string.
Proof.
  induction a as [|x a IH]; simpl; [reflexivity | rewrite IH; reflexivity].
Qed.

Lemma cons_head_nonempty c parts : cons_head c parts <> [].
Proof.
  destruct parts; discriminate.
Qed.

Lemma cons_head_app c parts last_part :
  parts <> [] ->
  cons_head c (parts ++ [last_part]) = cons_head c parts ++ [last_part].
Proof.
  destruct parts; [contradiction | reflexivity].
Qed.

Lemma split_tag_step c d rest :
  split_tag (String c (String d rest)) =
  if (Ascii.eqb c "|" && Ascii.eqb d ">")%bool
  then EmptyString :: split_tag rest
  else cons_head c (split_tag (String d rest)).
Proof. reflexivity. Qed.

Lemma has_tag_step c d rest :
  has_tag (String c (String d rest)) =
  ((Ascii.eqb c "|" && Ascii.eqb d ">") || has_tag (String d rest))%bool.
Proof. reflexivity. Qed.

Lemma split_tag_nonempty text : split_tag text <> [].
Proof.
  destruct text as [|c [|d rest]]; try discriminate.
  rewrite split_tag_step.
  destruct (Ascii.eqb c "|" && Ascii.eqb d ">")%bool; [discriminate|].
  apply cons_head_nonempty.
Qed.

Lemma join_cons_head c parts :
  parts <> [] -> join_tag (cons_head c parts) = String c (join_tag parts).
Proof.
  destruct parts as [|p [|q rest]]; [contradiction | reflexivity | reflexivity].
Qed.

Lemma is_tag c d :
  (Ascii.eqb c "|" && Ascii.eqb d ">")%bool = true ->
  c = "|"%char /\ d = ">"%char.
Proof.
  intros H. apply andb_true_iff in H. destruct H as [Hc Hd].
  apply Ascii.eqb_eq in Hc. apply Ascii.eqb_eq in Hd. auto.
Qed.

(** Joining the pieces with the separator gives the text back. *)
Lemma join_split_tag text : join_tag (split_tag text) = text.
Proof.
  induction text as [| c | c d rest IHrest IHd] using string_ind2;
    [reflexivity | reflexivity |].
  rewrite split_tag_step.
  destruct (Ascii.eqb c "|" && Ascii.eqb d ">")%bool eqn:Htag.
  - destruct (is_tag c d Htag) as [-> ->].
    pose proof (split_tag_nonempty rest) as Hne.
    destruct (split_tag rest) as [|p parts]; [contradiction|].
    change (join_tag (EmptyString :: p :: parts))
      with (String "|" (String ">" (join_tag (p :: parts)))).
    rewrite IHrest. reflexivity.
  - rewrite join_cons_head by apply split_tag_nonempty.
    rewrite IHd. reflexivity.
Qed.

Lemma split_tag_head d rest :
  exists part parts,
    split_tag (String d rest) = part :: parts /\
    (part = EmptyString \/ exists part', part = String d part').
Proof.
  destruct rest as [|e rest'].
  - eexists _, _. split; [reflexivity | right; eexists; reflexivity].
  - rewrite split_tag_step.
    destruct (Ascii.eqb d "|" && Ascii.eqb e ">")%bool.
    + eexists _, _. split; [reflexivity | left; reflexivity].
    + pose proof (split_tag_nonempty (String e rest')) as Hne.
      destruct (split_tag (String e rest')) as [|p parts]; [contradiction|].
      eexists _, _. split; [reflexivity | right; eexists; reflexivity].
Qed.

(** No piece contains the separator. *)
Lemma split_tag_parts text :
  Forall (fun part => has_tag part = false) (split_tag text).
Proof.
  induction text as [| c | c d rest IHrest IHd] using string_ind2.
  - repeat constructor.
  - repeat constructor.
  - rewrite split_tag_step.
    destruct (Ascii.eqb c "|" && Ascii.eqb d ">")%bool eqn:Htag.
    + constructor; [reflexivity | exact IHrest].
    + destruct (split_tag_head d rest) as (part & parts & E & Hpart).
      rewrite E in IHd |- *. simpl cons_head.
      inversion IHd as [|? ? Hp Hps]; subst.
      constructor; [|exact Hps].
      destruct Hpart as [-> | (part' & ->)]; [reflexivity|].
      rewrite has_tag_step, Htag, Hp. reflexivity.
Qed.

Lemma split_tag_untagged text : has_tag text = false -> split_tag text = [text].
Proof.
  induction text as [| c | c d rest IHrest IHd] using string_ind2;
    [reflexivity | reflexivity |].
  rewrite has_tag_step.
  intros H. apply orb_false_iff in H. destruct H as [Htag Hrest].
  rewrite split_tag_step, Htag, (IHd Hrest). reflexivity.
Qed.

Lemma split_tag_tail body :
  has_tag body = false ->
  forall tags,
    exists parts,
      parts <> [] /\
      split_tag (tags ++ "|>" ++ body) = parts ++ [body].
Proof.
  intros Hbody tags.
  induction tags as [| c | c d rest IHrest IHd] using string_ind2.
  - exists [EmptyString]. split; [discriminate|].
    simpl. rewrite (split_tag_untagged body Hbody). reflexivity.
  - exists [String c EmptyString]. split; [discriminate|].
    cbn [append split_tag].
    change (Ascii.eqb "|" ">") with false. rewrite andb_false_r.
    change (Ascii.eqb "|" "|" && Ascii.eqb ">" ">")%bool with true. cbv iota.
    rewrite (split_tag_untagged body Hbody). reflexivity.
  - change (String c (String d rest) ++ "|>" ++ body)%string
      with (String c (String d (rest ++ "|>" ++ body))).
    rewrite split_tag_step.
    destruct (Ascii.eqb c "|" && Ascii.eqb d ">")%bool.
    + destruct IHrest as (parts & Hne & ->).
      exists (EmptyString :: parts). split; [discriminate | reflexivity].
    + destruct IHd as (parts & Hne & E).
      change (String d rest ++ "|>" ++ body)%string
        with (String d (rest ++ "|>" ++ body)) in E.
      rewrite E. exists (cons_head c parts).
      split; [apply cons_head_nonempty | apply cons_head_app; exact Hne].
Qed.

Lemma join_tag_snoc parts last_part :
  parts <> [] ->
  join_tag (parts ++ [last_part]) =
  (join_tag parts ++ "|>" ++ last_part)%string.
Proof.
  induction parts as [|p parts IH]; [contradiction|]. intros _.
  destruct parts as [|q parts].
  - reflexivity.
  - change (join_tag ((p :: q :: parts) ++ [last_part]))
      with (p ++ "|>" ++ join_tag ((q :: parts) ++ [last_part]))%string.
    rewrite IH by discriminate.
    change (join_tag (p :: q :: parts))
      with (p ++ "|>" ++ join_tag (q :: parts))%string.
    rewrite !string_app_assoc. reflexivity.
Qed.

(** The value the function returns once the recognizer has answered. *)
Lemma recognition_result asr_generate path first others text :
  path <> EmptyString ->
  asr_generate path = inr (first :: others) ->
  dict_get "text" first = Some text ->
  exists parts last_part,
    split_tag text = parts ++ [last_part] /\
    prompt_wav_recognition asr_generate (Some path) = inr (Some last_part).
Proof.
  intros Hpath Hasr Htext. unfold prompt_wav_recognition, truthy.
  rewrite (proj2 (String.eqb_neq _ _) Hpath). simpl negb. cbv iota.
  rewrite Hasr. simpl. rewrite Htext.
  destruct (rev (split_tag text)) as [|last_part parts] eqn:Hrev.
  - exfalso. apply (split_tag_nonempty text).
    apply (f_equal (@rev string)) in Hrev. rewrite rev_involutive in Hrev.
    exact Hrev.
  - exists (rev parts), last_part. split; [|reflexivity].
    apply (f_equal (@rev string)) in Hrev. rewrite rev_involutive in Hrev.
    exact Hrev.
Qed.

(** X21: when the recognizer answers with a transcript, the function
    returns a text without ["|>"] that is the end of the transcript: the
    whole transcript when it holds no ["|>"], and otherwise what follows
    its last ["|>"]. *)
Theorem recognized_text_is_the_last_piece
    asr_generate path first others text :
  path <> EmptyString ->
  asr_generate path = inr (first :: others) ->
  dict_get "text" first = Some text ->
  exists recognized before,
    prompt_wav_recognition asr_generate (Some path) = inr (Some recognized) /\
    has_tag recognized = false /\
    text = (before ++ recognized)%string /\
    (before = EmptyString \/ exists tags, before = (tags ++ "|>")%string) /\
    (has_tag text = false -> recognized = text).
Proof.
  intros Hpath Hasr Htext.
  destruct (recognition_result asr_generate path first others text
              Hpath Hasr Htext) as (parts & last_part & Hsplit & Hres).
  pose proof (split_tag_parts text) as Hparts. rewrite Hsplit in Hparts.
  apply Forall_app in Hparts. destruct Hparts as [_ Hlast].
  inversion Hlast as [|? ? Hlast' _]; subst.
  pose proof (join_split_tag text) as Hjoin. rewrite Hsplit in Hjoin.
  destruct parts as [|p parts].
  - exists last_part, EmptyString. simpl in Hjoin.
    repeat split; auto.
  - rewrite join_tag_snoc in Hjoin by discriminate.
    exists last_part, (join_tag (p :: parts) ++ "|>")%string.
    split; [exact Hres | split; [exact Hlast' | split; [|split]]].
    + rewrite <- Hjoin, string_app_assoc. reflexivity.
    + right. eexists. reflexivity.
    + intros Hno. rewrite (split_tag_untagged text Hno) in Hsplit.
      destruct parts; [|destruct parts]; discriminate.
Qed.

Lemma recognized_text_is_the_last_piece_witness :
  "a.wav"%string <> EmptyString /\
  exists recognized before,
    prompt_wav_recognition demo_asr (Some "a.wav"%string) =
      inr (Some recognized) /\
    has_tag recognized = false /\
    "<|en|><|NEUTRAL|><|Speech|><|woitn|>hi there"%string =
      (before ++ recognized)%string.
Proof.
  assert (Hpath : "a.wav"%string <> EmptyString) by discriminate.
  split; [exact Hpath|].
  destruct (recognized_text_is_the_last_piece demo_asr "a.wav"
              [("key", "a.wav"); ("text",
                "<|en|><|NEUTRAL|><|Speech|><|woitn|>hi there")]%string []
              "<|en|><|NEUTRAL|><|Speech|><|woitn|>hi there"
              Hpath eq_refl eq_refl)
    as (recognized & before & Hres & Hno & Htext & _).
  exists recognized, before.
  split; [exact Hres | split; [exact Hno | exact Htext]].
Defined.

(** X22: a transcript made of tags, a last ["|>"] and a body without
    ["|>"], as the recognizer writes it, comes back as the body alone. *)
Theorem recognition_strips_tags asr_generate path first others tags body :
  path <> EmptyString ->
  asr_generate path = inr (first :: others) ->
  dict_get "text" first = Some (tags ++ "|>" ++ body)%string ->
  has_tag body = false ->
  prompt_wav_recognition asr_generate (Some path) = inr (Some body).
Proof.
  intros Hpath Hasr Htext Hbody.
  destruct (recognition_result asr_generate path first others _
              Hpath Hasr Htext) as (parts & last_part & Hsplit & Hres).
  destruct (split_tag_tail body Hbody tags) as (parts' & _ & E).
  rewrite E in Hsplit. apply app_inj_tail in Hsplit.
  destruct Hsplit as [_ <-]. exact Hres.
Qed.

Lemma recognition_strips_tags_witness :
  has_tag "hi there" = false /\
  prompt_wav_recognition demo_asr (Some "a.wav"%string) =
    inr (Some "hi there"%string).
Proof.
  assert (Hbody : has_tag "hi there" = false) by reflexivity.
  split; [exact Hbody|].
  apply (recognition_strips_tags demo_asr "a.wav"
           [("key", "a.wav"); ("text",
             "<|en|><|NEUTRAL|><|Speech|><|woitn|>hi there")]%string []
           "<|en|><|NEUTRAL|><|Speech|><|woitn" "hi there").
  - discriminate.
  - reflexivity.
  - reflexivity.
  - exact Hbody.
Defined.

(** X23: the cases without a text.  On [None] and on the empty path the
    function returns [None] and the recognizer is not consulted; an
    exception of the recognizer is passed on; an empty result list raises
    [IndexError]; a first result without a ["text"] entry raises
    [KeyError]. *)
Theorem recognition_without_text asr_generate path :
  prompt_wav_recognition asr_generate None = inr None /\
  prompt_wav_recognition asr_generate (Some EmptyString) = inr None /\
  (path <> EmptyString ->
   (forall e, asr_generate path = inl e ->
              prompt_wav_recognition asr_generate (Some path) = inl e) /\
   (asr_generate path = inr [] ->
    prompt_wav_recognition asr_generate (Some path) = inl IndexError) /\
   (forall first others,
      asr_generate path = inr (first :: others) ->
      dict_get "text" first = None ->
      prompt_wav_recognition asr_generate (Some path) =
        inl (KeyError "text"))).
Proof.
  split; [reflexivity | split; [reflexivity|]].
  intros Hpath. unfold prompt_wav_recognition, truthy.
  rewrite (proj2 (String.eqb_neq _ _) Hpath). simpl negb. cbv iota.
  repeat split.
  - intros e ->. reflexivity.
  - intros ->. reflexivity.
  - intros first others -> Hnone. simpl. rewrite Hnone. reflexivity.
Qed.

Lemma recognition_without_text_witness :
  "a.wav"%string <> EmptyString /\
  prompt_wav_recognition (fun _ => inr []) (Some "a.wav"%string) =
    inl IndexError.
Proof.
  assert (Hpath : "a.wav"%string <> EmptyString) by discriminate.
  split; [exact Hpath|].
  destruct (recognition_without_text (fun _ => inr []) "a.wav")
    as (_ & _ & Hrest).
  destruct (Hrest Hpath) as (_ & Hempty & _).
  exact (Hempty eq_refl).
Defined.
